(** * Directory Tree Excel Generator: the traversal and filtering engine

    A shallow embedding of [directory-tree-excel.js] (the second copy of the
    script carries the same code with shorter comments) and the properties
    of its path filter and tree walker.

    Conventions of the embedding:
    - JavaScript strings are [string]s (bytes); the separators [/] and [\]
      are single bytes, so splitting and joining act on them as in the script.
    - [path.sep] depends on the platform Node runs on; every definition that
      uses it takes the [platform].
    - Absolute paths, as [path.resolve] and [path.join] build them, are lists
      of segments below the filesystem root; the filesystem under the walk is
      a finite tree of named nodes. *)

From Stdlib Require Import Ascii String List Bool Arith Lia.
From stdpp Require Import base strings list gmap.

(** ** Strings: the JavaScript string methods the script calls *)

Module Js.

(** [s.split(re)] for a separator matching exactly one character among
    those accepted by [p]: the pieces between matches, empty pieces kept. *)
Fixpoint split (p : ascii -> bool) (s : string) : list string :=
  match s with
  | EmptyString => [EmptyString]
  | String c s' =>
      if p c then EmptyString :: split p s'
      else match split p s' with
           | [] => [String c EmptyString]
           | h :: t => String c h :: t
           end
  end.

(** [a.join(sep)] *)
Fixpoint join (sep : string) (a : list string) : string :=
  match a with
  | [] => EmptyString
  | [x] => x
  | x :: rest => x +:+ sep +:+ join sep rest
  end.

(** Truthiness of a string, as [filter(Boolean)] and [if (s)] use it. *)
Definition truthy (s : string) : bool :=
  match s with EmptyString => false | String _ _ => true end.

(** [s.startsWith(t)] *)
Fixpoint startsWith (s t : string) : bool :=
  match t, s with
  | EmptyString, _ => true
  | String _ _, EmptyString => false
  | String b t', String a s' => if Ascii.eqb a b then startsWith s' t' else false
  end.

(** [s.endsWith(t)] for a one-character [t]. *)
Fixpoint endsWithChar (s : string) (c : ascii) : bool :=
  match s with
  | EmptyString => false
  | String a EmptyString => Ascii.eqb a c
  | String _ s' => endsWithChar s' c
  end.

(** [s.slice(0, -1)] *)
Fixpoint dropLast (s : string) : string :=
  match s with
  | EmptyString => EmptyString
  | String _ EmptyString => EmptyString
  | String a s' => String a (dropLast s')
  end.

(** [s.slice(1)] *)
Definition slice1 (s : string) : string :=
  match s with EmptyString => EmptyString | String _ s' => s' end.

(** [s.repeat(n)] *)
Fixpoint repeat (s : string) (n : nat) : string :=
  match n with O => EmptyString | S n' => s +:+ repeat s n' end.

(** [s.toLowerCase()] for strings of ASCII characters: the letters [A] to [Z]
    are lowered, every other byte is kept.  On other strings the method of
    the language does more (it lowers every cased letter); properties that
    rest on the mapping itself are stated for ASCII strings. *)
Definition lowerChar (c : ascii) : ascii :=
  let n := nat_of_ascii c in
  if (65 <=? n)%nat && (n <=? 90)%nat then ascii_of_nat (n + 32) else c.

Fixpoint toLowerCase (s : string) : string :=
  match s with
  | EmptyString => EmptyString
  | String c s' => String (lowerChar c) (toLowerCase s')
  end.

(** [s.trim()] for strings of ASCII characters: white space removed at both
    ends (space, tab, line feed, vertical tab, form feed, carriage return).
    The method of the language also removes the other white space of
    Unicode; no property below rests on which characters are removed. *)
Definition isSpace (c : ascii) : bool :=
  let n := nat_of_ascii c in
  (n =? 32)%nat || ((9 <=? n)%nat && (n <=? 13)%nat).

Fixpoint trimStart (s : string) : string :=
  match s with
  | EmptyString => EmptyString
  | String c s' => if isSpace c then trimStart s' else s
  end.

Fixpoint trimEnd (s : string) : string :=
  match s with
  | EmptyString => EmptyString
  | String c s' =>
      match trimEnd s' with
      | EmptyString => if isSpace c then EmptyString else String c EmptyString
      | t => String c t
      end
  end.

Definition trim (s : string) : string := trimEnd (trimStart s).

End Js.

(** ** Node's [path] module, as far as the script uses it *)

Inductive platform := Posix | Win32.

Definition sepChar (pf : platform) : ascii :=
  match pf with Posix => "/"%char | Win32 => "\"%char end.

(** [path.sep] *)
Definition path_sep (pf : platform) : string := String (sepChar pf) EmptyString.

(** The character class of the regular expression [/[/\\]/]. *)
Definition isSlash (c : ascii) : bool :=
  Ascii.eqb c "/"%char || Ascii.eqb c "\"%char.

(** Absolute paths after [path.resolve]: the segments below the filesystem
    root.  [path.join(dir, item)] for an item that [readdirSync] returned
    appends one segment. *)
Definition fpath := list string.

Definition path_join (dirPath : fpath) (item : string) : fpath := dirPath ++ [item].

(** [path.relative(from, to)] on resolved paths: the common leading segments
    are dropped, one [..] climbs out of each remaining segment of [from]. *)
Fixpoint relativeSegs (from to : fpath) : list string :=
  match from, to with
  | f :: from', t :: to' =>
      if String.eqb f t then relativeSegs from' to'
      else List.repeat ".." (length from) ++ to
  | _, _ => List.repeat ".." (length from) ++ to
  end.

Definition path_relative (pf : platform) (from to : fpath) : string :=
  Js.join (path_sep pf) (relativeSegs from to).

(** [path.extname], after Node's [lib/path.js]: one backward scan that
    records where the last dot of the last path portion is ([startDot]), where
    that portion ends ([end]) and what precedes the dot ([preDotState]). *)
Module Extname.

Record state := mk {
  startDot : Z;
  startPart : Z;
  endIdx : Z;
  matchedSlash : bool;
  preDotState : Z
}.

Definition isPathSeparator (pf : platform) (c : ascii) : bool :=
  match pf with
  | Posix => Ascii.eqb c "/"%char
  | Win32 => isSlash c
  end.

Definition isWindowsDeviceRoot (c : ascii) : bool :=
  let n := nat_of_ascii c in
  ((65 <=? n)%nat && (n <=? 90)%nat) || ((97 <=? n)%nat && (n <=? 122)%nat).

(** The loop [for (i = path.length - 1; i >= start; --i)], over the
    characters paired with their indices, last one first. *)
Fixpoint scan (pf : platform) (l : list (Z * ascii)) (st : state) : state :=
  match l with
  | [] => st
  | (i, code) :: l' =>
      if isPathSeparator pf code then
        if negb (matchedSlash st)
        then mk (startDot st) (i + 1) (endIdx st) (matchedSlash st) (preDotState st)
        else scan pf l' st
      else
        let st1 :=
          if (endIdx st =? -1)%Z
          then mk (startDot st) (startPart st) (i + 1) false (preDotState st)
          else st in
        let st2 :=
          if Ascii.eqb code "."%char then
            if (startDot st1 =? -1)%Z
            then mk i (startPart st1) (endIdx st1) (matchedSlash st1) (preDotState st1)
            else if negb (preDotState st1 =? 1)%Z
                 then mk (startDot st1) (startPart st1) (endIdx st1) (matchedSlash st1) 1
                 else st1
          else if negb (startDot st1 =? -1)%Z
               then mk (startDot st1) (startPart st1) (endIdx st1) (matchedSlash st1) (-1)
               else st1 in
        scan pf l' st2
  end.

Definition indexed (s : string) : list (Z * ascii) :=
  let cs := list_ascii_of_string s in
  combine (map Z.of_nat (seq 0 (length cs))) cs.

Definition start (pf : platform) (s : string) : nat :=
  match pf, s with
  | Win32, String c0 (String c1 _) =>
      if Ascii.eqb c1 ":"%char && isWindowsDeviceRoot c0 then 2 else 0
  | _, _ => 0
  end.

Definition extname (pf : platform) (path : string) : string :=
  let s0 := start pf path in
  let st := scan pf (rev (drop s0 (indexed path)))
              (mk (-1) (Z.of_nat s0) (-1) true 0) in
  if (startDot st =? -1)%Z || (endIdx st =? -1)%Z || (preDotState st =? 0)%Z
     || ((preDotState st =? 1)%Z && (startDot st =? endIdx st - 1)%Z
         && (startDot st =? startPart st + 1)%Z)
  then EmptyString
  else substring (Z.to_nat (startDot st)) (Z.to_nat (endIdx st - startDot st)) path.

End Extname.

(** ** The path filter *)

(** [normalizePath] *)
Definition normalizePath (pf : platform) (inputPath : string) : string :=
  Js.join (path_sep pf) (List.filter Js.truthy (Js.split isSlash inputPath)).

(** [includedExtensions], from the value of [--include-only-extensions]. *)
Definition includedExtensionsOf (arg : string) : option (gset string) :=
  if Js.truthy arg
  then Some (list_to_set
               (map (fun ext => Js.trim (Js.toLowerCase ext))
                    (Js.split (Ascii.eqb ","%char) arg)))
  else None.

(** The body of the loop of [shouldExclude]: the test applied to one entry
    of the set. *)
Definition matchesDirectoryEntry (pf : platform) (normalizedItemPath excludePath : string) : bool :=
  if Js.endsWithChar excludePath (sepChar pf) then
    let excludeDir := Js.dropLast excludePath in
    String.eqb normalizedItemPath excludeDir
    || Js.startsWith normalizedItemPath (excludeDir +:+ path_sep pf)
  else false.

(** [shouldExclude] *)
Definition shouldExclude (pf : platform) (itemPath : string) (excludeList : gset string) : bool :=
  let normalizedItemPath := normalizePath pf itemPath in
  if bool_decide (normalizedItemPath ∈ excludeList) then true
  else existsb (matchesDirectoryEntry pf normalizedItemPath) (elements excludeList).

(** [shouldIncludeFile]; the global [includedExtensions] is a parameter. *)
Definition shouldIncludeFile (pf : platform) (includedExtensions : option (gset string))
    (filePath : string) : bool :=
  match includedExtensions with
  | None => true
  | Some exts =>
      let ext := Js.slice1 (Js.toLowerCase (Extname.extname pf filePath)) in
      bool_decide (ext ∈ exts)
  end.

(** ** The filesystem under the walk *)

(** What a path names.  A directory lists its children in the order
    [readdirSync] returns them, each name with the node it names. *)
#[local] Unset Elimination Schemes.
Inductive node :=
| FileNode (content : option string)   (* a file; [None]: it cannot be read *)
| DirNode (items : list (string * node))
| DirNoList                            (* a directory that cannot be listed *)
| NoStat.                              (* nothing [statSync] can report on *)
#[local] Set Elimination Schemes.

(** The exceptions of the [fs] calls, with the path they failed on. *)
Inductive fs_error :=
| Escandir (p : fpath)
| Estat (p : fpath)
| Eopen (p : fpath)
| Ewrite (p : fpath).

Inductive outcome (A : Type) :=
| Returned (a : A)
| Thrown (e : fs_error).
Arguments Returned {A} a.
Arguments Thrown {A} e.

(** [fs.readdirSync] *)
Definition readdirSync (n : node) (p : fpath) : outcome (list (string * node)) :=
  match n with
  | DirNode items => Returned items
  | _ => Thrown (Escandir p)
  end.

(** [fs.statSync(p).isDirectory()] *)
Definition statSync_isDirectory (n : node) (p : fpath) : outcome bool :=
  match n with
  | FileNode _ => Returned false
  | DirNode _ | DirNoList => Returned true
  | NoStat => Thrown (Estat p)
  end.

Fixpoint lookupItem (item : string) (items : list (string * node)) : option node :=
  match items with
  | [] => None
  | (x, n) :: rest => if String.eqb x item then Some n else lookupItem item rest
  end.

(** [fs.existsSync(path.join(dir, item))] *)
Definition existsSync (dir : node) (item : string) : bool :=
  match dir with
  | DirNode items =>
      match lookupItem item items with
      | Some NoStat | None => false
      | Some _ => true
      end
  | _ => false
  end.

(** [fs.readFileSync(path.join(dir, item), 'utf8')] *)
Definition readFileSync (dir : node) (dirPath : fpath) (item : string) : outcome string :=
  match dir with
  | DirNode items =>
      match lookupItem item items with
      | Some (FileNode (Some content)) => Returned content
      | _ => Thrown (Eopen (path_join dirPath item))
      end
  | _ => Thrown (Eopen (path_join dirPath item))
  end.

(** ** The state of a run *)

(** One data row of the worksheet: the cells [level], [type], [name], [path]
    and [status]. *)
Record Entry := mkEntry {
  e_level : nat;
  e_type : string;
  e_name : string;
  e_path : string;
  e_status : string
}.

(** What the script prints. *)
Inductive logline :=
| ErrReadingExclusionFile (e : fs_error)
| LogExcludedItems (excludeList : gset string)
| LogIncludingOnly (exts : gset string)
| ErrProcessingDirectory (dirPath : fpath) (e : fs_error)
| LogGenerated (outputPath : fpath)
| ErrGeneratingExcel (e : fs_error).

(** The workbook as [writeFile] stores it: the data rows with their row
    numbers and the last row of the auto-filter. *)
Record workbookFile := mkFile {
  f_rows : list (nat * Entry);
  f_autoFilterTo : option nat
}.

(** The globals [rowIndex] and [worksheet] (its data rows with their row
    numbers, and the last row of its auto-filter once set), the console, and
    the files written. *)
Record world := mkWorld {
  rowIndex : nat;
  worksheet : list (nat * Entry);
  autoFilterTo : option nat;
  console : list logline;
  disk : list (fpath * workbookFile)
}.

Definition initialWorld : world := mkWorld 2 [] None [] [].

(** The entries of the worksheet, in row order. *)
Definition entries (w : world) : list Entry := map snd (worksheet w).

(** Computations that change the world and may throw; what was done before
    an exception stays done. *)
Definition M (A : Type) : Type := world -> outcome A * world.

Definition ret {A} (a : A) : M A := fun w => (Returned a, w).

Definition throw {A} (e : fs_error) : M A := fun w => (Thrown e, w).

Definition bind {A B} (m : M A) (k : A -> M B) : M B :=
  fun w =>
    match m w with
    | (Returned a, w') => k a w'
    | (Thrown e, w') => (Thrown e, w')
    end.

Definition tryCatch {A} (m : M A) (handler : fs_error -> M A) : M A :=
  fun w =>
    match m w with
    | (Returned a, w') => (Returned a, w')
    | (Thrown e, w') => handler e w'
    end.

Definition lift {A} (o : outcome A) : M A := fun w => (o, w).

Notation "'do' x <- m ; k" := (bind m (fun x => k))
  (at level 10, x name, m at level 100, k at level 200).
Notation "'exec' m ; k" := (bind m (fun _ => k))
  (at level 10, m at level 100, k at level 200).

Definition consoleLog (l : logline) : M unit :=
  fun w => (Returned tt,
            mkWorld (rowIndex w) (worksheet w) (autoFilterTo w) (console w ++ [l]) (disk w)).

(** The row written at [rowIndex], followed by [rowIndex++]. *)
Definition addRow (e : Entry) : M unit :=
  fun w => (Returned tt,
            mkWorld (S (rowIndex w)) (worksheet w ++ [(rowIndex w, e)]) (autoFilterTo w)
                    (console w) (disk w)).

(** [worksheet.autoFilter = { from: row 1, to: row rowIndex - 1 }] *)
Definition setAutoFilter : M unit :=
  fun w => (Returned tt,
            mkWorld (rowIndex w) (worksheet w) (Some (rowIndex w - 1)) (console w) (disk w)).

(** [workbook.xlsx.writeFile(outputPath)], awaited; [writable] tells whether
    the file can be created. *)
Definition writeFile (outputPath : fpath) (writable : bool) : M unit :=
  fun w =>
    if writable
    then (Returned tt,
          mkWorld (rowIndex w) (worksheet w) (autoFilterTo w) (console w)
                  (disk w ++ [(outputPath, mkFile (worksheet w) (autoFilterTo w))]))
    else (Thrown (Ewrite outputPath), w).

(** ** Reading the exclusion list *)

Definition exclusionFileName : string := "TO_EXCLUDE_TREE_TEMP.txt".

(** [getExclusionList]; [root] is the node at [basePath]. *)
Definition getExclusionList (pf : platform) (root : node) (basePath : fpath) : M (gset string) :=
  let excludeList : gset string := {[ exclusionFileName ]} in
  tryCatch
    (if existsSync root exclusionFileName then
       do content <- lift (readFileSync root basePath exclusionFileName);
       ret (fold_left
              (fun (acc : gset string) line =>
                 let trimmedLine := Js.trim line in
                 if Js.truthy trimmedLine
                 then acc ∪ {[ normalizePath pf trimmedLine ]}
                 else acc)
              (Js.split (Ascii.eqb "010"%char) content)
              excludeList)
     else ret excludeList)
    (fun error => exec consoleLog (ErrReadingExclusionFile error); ret excludeList).

(** ** Pruning by extension *)

(** [checkDir], the helper inside [hasIncludedFiles]; the variable
    [hasMatchingFiles] it shares with its enclosing call is threaded through
    as the second component. *)
Fixpoint checkDir (pf : platform) (includedExtensions : option (gset string))
    (n : node) (currentPath : fpath) (hasMatchingFiles : bool) : outcome bool * bool :=
  match n with
  | DirNode items =>
      (fix loop (items : list (string * node)) (hasMatchingFiles : bool) : outcome bool * bool :=
         match items with
         | [] => (Returned hasMatchingFiles, hasMatchingFiles)
         | (item, child) :: rest =>
             let fullPath := path_join currentPath item in
             match statSync_isDirectory child fullPath with
             | Thrown e => (Thrown e, hasMatchingFiles)
             | Returned true =>
                 match checkDir pf includedExtensions child fullPath hasMatchingFiles with
                 | (Thrown e, h) => (Thrown e, h)
                 | (Returned true, _) => (Returned true, true)
                 | (Returned false, h) => loop rest h
                 end
             | Returned false =>
                 if shouldIncludeFile pf includedExtensions item
                 then (Returned true, true)
                 else loop rest hasMatchingFiles
             end
         end) items hasMatchingFiles
  | _ => (Thrown (Escandir currentPath), hasMatchingFiles)
  end.

(** [hasIncludedFiles] *)
Definition hasIncludedFiles (pf : platform) (includedExtensions : option (gset string))
    (n : node) (dirPath : fpath) : outcome bool :=
  match includedExtensions with
  | None => Returned true
  | Some _ => fst (checkDir pf includedExtensions n dirPath false)
  end.

(** ** The tree walker *)

(** [getRelativePath] *)
Definition getRelativePath (pf : platform) (fullPath basePath : fpath) : string :=
  Js.join "/" (Js.split (Ascii.eqb (sepChar pf)) (path_relative pf basePath fullPath)).

Definition rowFor (level : nat) (isDirectory : bool) (item relativePath : string) : Entry :=
  mkEntry level
          (if isDirectory then "Directory" else "File")
          (Js.repeat "  " level +:+ item)
          (relativePath +:+ (if isDirectory then "/" else ""))
          "pending".

(** [processDirectory]; [n] is the node at [dirPath]. *)
Fixpoint processDirectory (pf : platform) (includedExtensions : option (gset string))
    (n : node) (dirPath basePath : fpath) (excludeList : gset string) (level : nat) : M unit :=
  tryCatch
    (match n with
     | DirNode items =>                 (* [readdirSync] returns [items] *)
     do dirHasIncludedFiles <- lift (hasIncludedFiles pf includedExtensions n dirPath);
     if negb dirHasIncludedFiles then ret tt
     else
       (fix loop (items : list (string * node)) : M unit :=
          match items with
          | [] => ret tt
          | (item, child) :: rest =>
              (* the body of the loop; [ret tt] where it says [continue] *)
              exec (let fullPath := path_join dirPath item in
                    let relativePath := getRelativePath pf fullPath basePath in
                    if shouldExclude pf relativePath excludeList then ret tt
                    else
                      do isDirectory <- lift (statSync_isDirectory child fullPath);
                      if negb isDirectory && negb (shouldIncludeFile pf includedExtensions item)
                      then ret tt
                      else
                        do pruned <- (if isDirectory
                                      then do b <- lift (hasIncludedFiles pf includedExtensions
                                                           child fullPath);
                                           ret (negb b)
                                      else ret false);
                        if (pruned : bool) then ret tt
                        else
                          exec addRow (rowFor level isDirectory item relativePath);
                          if isDirectory
                          then processDirectory pf includedExtensions child fullPath basePath
                                 excludeList (level + 1)
                          else ret tt);
              loop rest
          end) items
     | _ => throw (Escandir dirPath)    (* [readdirSync] throws *)
     end)
    (fun error => consoleLog (ErrProcessingDirectory dirPath error)).

(** [generateExcel]; [basePath] is [path.resolve(argv.path)], [root] the node
    it names, [cwd] is [process.cwd()]. *)
Definition generateExcel (pf : platform) (includedExtensions : option (gset string))
    (root : node) (basePath cwd : fpath) (cwdWritable : bool) : M unit :=
  tryCatch
    (do excludeList <- getExclusionList pf root basePath;
     exec consoleLog (LogExcludedItems excludeList);
     exec (match includedExtensions with
           | Some exts => consoleLog (LogIncludingOnly exts)
           | None => ret tt
           end);
     exec processDirectory pf includedExtensions root basePath basePath excludeList 0;
     exec setAutoFilter;
     let outputPath := path_join cwd "directory-tree.xlsx" in
     exec writeFile outputPath cwdWritable;
     consoleLog (LogGenerated outputPath))
    (fun error => consoleLog (ErrGeneratingExcel error)).

(** The script, started in a fresh process. *)
Definition run (pf : platform) (includedExtensions : option (gset string))
    (root : node) (basePath cwd : fpath) (cwdWritable : bool) : world :=
  snd (generateExcel pf includedExtensions root basePath cwd cwdWritable initialWorld).

(** ** The loops on their own *)

(** The [for] loop of [checkDir]. *)
Definition checkItems (pf : platform) (includedExtensions : option (gset string))
    (currentPath : fpath) : list (string * node) -> bool -> outcome bool * bool :=
  fix loop (items : list (string * node)) (hasMatchingFiles : bool) : outcome bool * bool :=
    match items with
    | [] => (Returned hasMatchingFiles, hasMatchingFiles)
    | (item, child) :: rest =>
        let fullPath := path_join currentPath item in
        match statSync_isDirectory child fullPath with
        | Thrown e => (Thrown e, hasMatchingFiles)
        | Returned true =>
            match checkDir pf includedExtensions child fullPath hasMatchingFiles with
            | (Thrown e, h) => (Thrown e, h)
            | (Returned true, _) => (Returned true, true)
            | (Returned false, h) => loop rest h
            end
        | Returned false =>
            if shouldIncludeFile pf includedExtensions item
            then (Returned true, true)
            else loop rest hasMatchingFiles
        end
    end.

(** The body of the [for] loop of [processDirectory], for one child. *)
Definition processItem (pf : platform) (includedExtensions : option (gset string))
    (dirPath basePath : fpath) (excludeList : gset string) (level : nat)
    (item : string) (child : node) : M unit :=
  let fullPath := path_join dirPath item in
  let relativePath := getRelativePath pf fullPath basePath in
  if shouldExclude pf relativePath excludeList then ret tt
  else
    do isDirectory <- lift (statSync_isDirectory child fullPath);
    if negb isDirectory && negb (shouldIncludeFile pf includedExtensions item)
    then ret tt
    else
      do pruned <- (if isDirectory
                    then do b <- lift (hasIncludedFiles pf includedExtensions child fullPath);
                         ret (negb b)
                    else ret false);
      if (pruned : bool) then ret tt
      else
        exec addRow (rowFor level isDirectory item relativePath);
        if isDirectory
        then processDirectory pf includedExtensions child fullPath basePath
               excludeList (level + 1)
        else ret tt.

(** The [for] loop of [processDirectory]. *)
Definition processItems (pf : platform) (includedExtensions : option (gset string))
    (dirPath basePath : fpath) (excludeList : gset string) (level : nat)
    : list (string * node) -> M unit :=
  fix loop (items : list (string * node)) : M unit :=
    match items with
    | [] => ret tt
    | (item, child) :: rest =>
        exec processItem pf includedExtensions dirPath basePath excludeList level item child;
        loop rest
    end.

(** ** Vocabulary of the properties *)

(** No character of [s] satisfies [p]. *)
Fixpoint noneOf (p : ascii -> bool) (s : string) : bool :=
  match s with
  | EmptyString => true
  | String c s' => negb (p c) && noneOf p s'
  end.

(** A path segment: not empty, neither separator inside. *)
Definition isSegment (s : string) : bool := Js.truthy s && noneOf isSlash s.

(** Two strings that differ only in which separator stands where. *)
Fixpoint sameUpToSeparator (x y : string) : bool :=
  match x, y with
  | EmptyString, EmptyString => true
  | String a x', String b y' =>
      (Ascii.eqb a b || (isSlash a && isSlash b)) && sameUpToSeparator x' y'
  | _, _ => false
  end.

(** The segments of a path string, as [normalizePath] finds them. *)
Definition segmentsOf (x : string) : list string :=
  List.filter Js.truthy (Js.split isSlash x).

(** The last dot of a name: its index and the text after it. *)
Fixpoint lastDot (s : string) : option (nat * string) :=
  match s with
  | EmptyString => None
  | String c s' =>
      match lastDot s' with
      | Some (j, t) => Some (S j, t)
      | None => if Ascii.eqb c "."%char then Some (0, s') else None
      end
  end.

(** "The text after the last dot, empty if none", in the words of the
    specification. *)
Definition textAfterLastDot (s : string) : string :=
  match lastDot s with
  | Some (_, t) => t
  | None => EmptyString
  end.

(** The only dot of the name is its first character, as in [.gitignore]. *)
Definition onlyLeadingDot (s : string) : bool :=
  match lastDot s with
  | Some (0, _) => true
  | _ => false
  end.

(** A name as [readdirSync] returns it: no path separator of the platform
    in it and, on Windows, no drive prefix. *)
Definition plainName (pf : platform) (name : string) : bool :=
  noneOf (Extname.isPathSeparator pf) name && (Extname.start pf name =? 0)%nat.

(** Vocabulary for the scan of [path.extname]. *)
Module ExtnameScan.
Import Extname.

Definition indexedFrom (k : nat) (cs : list ascii) : list (Z * ascii) :=
  combine (map Z.of_nat (seq k (length cs))) cs.

Definition init : state := mk (-1) 0 (-1) true 0.

(** One turn of the loop on a character that is not a path separator. *)
Definition step (i : Z) (code : ascii) (st : state) : state :=
  let st1 :=
    if (endIdx st =? -1)%Z
    then mk (startDot st) (startPart st) (i + 1) false (preDotState st)
    else st in
  if Ascii.eqb code "."%char then
    if (startDot st1 =? -1)%Z
    then mk i (startPart st1) (endIdx st1) (matchedSlash st1) (preDotState st1)
    else if negb (preDotState st1 =? 1)%Z
         then mk (startDot st1) (startPart st1) (endIdx st1) (matchedSlash st1) 1
         else st1
  else if negb (startDot st1 =? -1)%Z
       then mk (startDot st1) (startPart st1) (endIdx st1) (matchedSlash st1) (-1)
       else st1.

(** What the scan has recorded after reading the name [s], whose first
    character has index [k], from its end. *)
Definition scanned (k : nat) (s : string) (st : state) : Prop :=
  startPart st = 0%Z
  /\ match s with
     | EmptyString => endIdx st = (-1)%Z /\ matchedSlash st = true
     | String _ _ => endIdx st = Z.of_nat (k + String.length s) /\ matchedSlash st = false
     end
  /\ match lastDot s with
     | None => startDot st = (-1)%Z /\ preDotState st = 0%Z
     | Some (j, _) =>
         startDot st = Z.of_nat (k + j)
         /\ preDotState st =
              match j, s with
              | O, _ => 0%Z
              | S _, String c _ => if Ascii.eqb c "."%char then 1%Z else (-1)%Z
              | S _, EmptyString => 0%Z
              end
     end.

End ExtnameScan.

(** The first character of [y] exists and is not a separator. *)
Definition beginsOutsideSeparator (y : string) : bool :=
  match y with
  | EmptyString => false
  | String c _ => negb (isSlash c)
  end.

(** *** The output as a forest *)

(** A directory's listing; nothing for what cannot be listed. *)
Definition childItems (n : node) : list (string * node) :=
  match n with
  | DirNode items => items
  | _ => []
  end.

(** An entry with the entries emitted beneath it. *)
#[local] Unset Elimination Schemes.
Inductive etree := ENode (e : Entry) (children : list etree).
#[local] Set Elimination Schemes.

Definition rootEntry (t : etree) : Entry := match t with ENode e _ => e end.

(** Pre-order: an entry, then its children's trees from first to last. *)
Fixpoint preorder (t : etree) : list Entry :=
  match t with
  | ENode e children => e :: flat_map preorder children
  end.

Definition preorderAll (f : list etree) : list Entry := flat_map preorder f.

(** [shadows dirPath level items f]: the forest [f] stands for a selection of
    the listing [items] of [dirPath], taken in the order of the listing.  A
    selected file gives a leaf; a selected directory gives a tree whose
    children stand in the same way for the directory's own listing, one level
    down.  A selected child is not excluded, and passes the extension filter
    (a file) or the pruning test (a directory). *)
Inductive shadows (pf : platform) (exts : option (gset string)) (excludeList : gset string)
    (basePath : fpath) : fpath -> nat -> list (string * node) -> list etree -> Prop :=
| shadows_nil dirPath level :
    shadows pf exts excludeList basePath dirPath level [] []
| shadows_skip dirPath level item child rest f :
    shadows pf exts excludeList basePath dirPath level rest f ->
    shadows pf exts excludeList basePath dirPath level ((item, child) :: rest) f
| shadows_file dirPath level item child rest f :
    let relativePath := getRelativePath pf (path_join dirPath item) basePath in
    shouldExclude pf relativePath excludeList = false ->
    statSync_isDirectory child (path_join dirPath item) = Returned false ->
    shouldIncludeFile pf exts item = true ->
    shadows pf exts excludeList basePath dirPath level rest f ->
    shadows pf exts excludeList basePath dirPath level ((item, child) :: rest)
            (ENode (rowFor level false item relativePath) [] :: f)
| shadows_dir dirPath level item child rest fc f :
    let relativePath := getRelativePath pf (path_join dirPath item) basePath in
    shouldExclude pf relativePath excludeList = false ->
    statSync_isDirectory child (path_join dirPath item) = Returned true ->
    hasIncludedFiles pf exts child (path_join dirPath item) = Returned true ->
    shadows pf exts excludeList basePath (path_join dirPath item) (level + 1)
            (childItems child) fc ->
    shadows pf exts excludeList basePath dirPath level rest f ->
    shadows pf exts excludeList basePath dirPath level ((item, child) :: rest)
            (ENode (rowFor level true item relativePath) fc :: f).

(** Rows numbered from [k] on. *)
Definition numbered (k : nat) (es : list Entry) : list (nat * Entry) :=
  combine (seq k (length es)) es.

(** The world after more rows and more console lines. *)
Definition extend (w : world) (es : list Entry) (logs : list logline) : world :=
  mkWorld (rowIndex w + length es) (worksheet w ++ numbered (rowIndex w) es)
          (autoFilterTo w) (console w ++ logs) (disk w).

(** What a call of [processDirectory] on [n] does, whatever the world: it
    returns, having added the pre-order of a forest over the listing of [n]
    to the worksheet and some lines to the console. *)
Definition walksTo (pf : platform) (exts : option (gset string)) (excludeList : gset string)
    (basePath : fpath) (n : node) : Prop :=
  forall dirPath level w,
  exists f logs,
    processDirectory pf exts n dirPath basePath excludeList level w
    = (Returned tt, extend w (preorderAll f) logs)
    /\ shadows pf exts excludeList basePath dirPath level (childItems n) f.

(** The names found [k] levels below the listing of [n]: its own items for
    [k = 0]. *)
Fixpoint namesBelow (n : node) (k : nat) : list string :=
  match n with
  | DirNode items =>
      (fix go (items : list (string * node)) : list string :=
         match items with
         | [] => []
         | (item, child) :: rest =>
             match k with
             | O => [item]
             | S k' => namesBelow child k'
             end ++ go rest
         end) items
  | _ => []
  end.

(** A name a directory can hold: not empty, no path separator of the
    platform in it. *)
Definition validName (pf : platform) (s : string) : bool :=
  Js.truthy s && noneOf (Extname.isPathSeparator pf) s.

(** Every name in the tree is valid. *)
Fixpoint validNode (pf : platform) (n : node) : bool :=
  match n with
  | DirNode items =>
      (fix go (items : list (string * node)) : bool :=
         match items with
         | [] => true
         | (item, child) :: rest => validName pf item && validNode pf child && go rest
         end) items
  | _ => true
  end.

(** The segments of a relative path of the output, which uses [/]. *)
Definition pathSegments (p : string) : list string :=
  List.filter Js.truthy (Js.split (fun c => Ascii.eqb c "/"%char) p).

(** The path without its last segment. *)
Definition parentPath (p : string) : string :=
  Js.join "/" (removelast (pathSegments p)).

Definition stripTrailingSlash (p : string) : string :=
  if Js.endsWithChar p "/"%char then Js.dropLast p else p.

(** The level of an entry is the number of segments of its path less one. *)
Definition levelCountsSegments (e : Entry) : Prop :=
  1 <= length (pathSegments (e_path e))
  /\ e_level e = length (pathSegments (e_path e)) - 1.

(** Before position [i] of [es] stands the directory entry of the parent
    of [e]. *)
Definition hasParentBefore (es : list Entry) (i : nat) (e : Entry) : Prop :=
  exists j d,
    j < i /\ es !! j = Some d
    /\ e_type d = "Directory"
    /\ e_level d = e_level e - 1
    /\ stripTrailingSlash (e_path d) = parentPath (e_path e).

(** Every directory of the tree can be listed and every child can be
    examined. *)
Fixpoint errorFree (n : node) : bool :=
  match n with
  | FileNode _ => true
  | DirNode items =>
      (fix go (items : list (string * node)) : bool :=
         match items with
         | [] => true
         | (_, child) :: rest => errorFree child && go rest
         end) items
  | DirNoList | NoStat => false
  end.

(** "The subtree contains at least one file passing the filter": a
    function of the subtree and of the extension filter alone. *)
Fixpoint containsIncluded (pf : platform) (exts : option (gset string)) (n : node) : bool :=
  match n with
  | DirNode items =>
      (fix go (items : list (string * node)) : bool :=
         match items with
         | [] => false
         | (item, child) :: rest =>
             match child with
             | FileNode _ => shouldIncludeFile pf exts item
             | _ => containsIncluded pf exts child
             end || go rest
         end) items
  | _ => false
  end.

(** *** The walk without the state *)

(** The pruning test on a tree that can be read. *)
Definition passesPruning (pf : platform) (exts : option (gset string)) (n : node) : bool :=
  match exts with
  | None => true
  | Some _ => containsIncluded pf exts n
  end.

(** The entries of a directory as a function of the tree: for each child in
    listing order, nothing if it is excluded, fails the extension filter or
    the pruning test; otherwise its entry, followed for a directory by the
    entries of its own listing one level down. *)
Fixpoint expectedEntries (pf : platform) (exts : option (gset string)) (excludeList : gset string)
    (basePath : fpath) (n : node) (dirPath : fpath) (level : nat) : list Entry :=
  match n with
  | DirNode items =>
      if passesPruning pf exts n then
        (fix go (items : list (string * node)) : list Entry :=
           match items with
           | [] => []
           | (item, child) :: rest =>
               (let fullPath := path_join dirPath item in
                let relativePath := getRelativePath pf fullPath basePath in
                if shouldExclude pf relativePath excludeList then []
                else
                  match child with
                  | FileNode _ =>
                      if shouldIncludeFile pf exts item
                      then [rowFor level false item relativePath]
                      else []
                  | DirNode _ =>
                      if passesPruning pf exts child
                      then rowFor level true item relativePath
                           :: expectedEntries pf exts excludeList basePath child fullPath
                                              (level + 1)
                      else []
                  | _ => []
                  end) ++ go rest
           end) items
      else []
  | _ => []
  end.

(** The part of [expectedEntries] for one child. *)
Definition expectedForItem (pf : platform) (exts : option (gset string))
    (excludeList : gset string) (basePath dirPath : fpath) (level : nat)
    (item : string) (child : node) : list Entry :=
  let fullPath := path_join dirPath item in
  let relativePath := getRelativePath pf fullPath basePath in
  if shouldExclude pf relativePath excludeList then []
  else
    match child with
    | FileNode _ =>
        if shouldIncludeFile pf exts item then [rowFor level false item relativePath] else []
    | DirNode _ =>
        if passesPruning pf exts child
        then rowFor level true item relativePath
             :: expectedEntries pf exts excludeList basePath child fullPath (level + 1)
        else []
    | _ => []
    end.

(** The part of [expectedEntries] for a listing. *)
Definition expectedForItems (pf : platform) (exts : option (gset string))
    (excludeList : gset string) (basePath dirPath : fpath) (level : nat)
    : list (string * node) -> list Entry :=
  fix go (items : list (string * node)) : list Entry :=
    match items with
    | [] => []
    | (item, child) :: rest =>
        expectedForItem pf exts excludeList basePath dirPath level item child ++ go rest
    end.

(** *** Errors and where they are logged *)

(** The path an error names. *)
Definition errorPath (e : fs_error) : fpath :=
  match e with
  | Escandir p | Estat p | Eopen p | Ewrite p => p
  end.

(** A console line of the walk below [dirPath]: it names a directory that is
    [dirPath] or lies beneath it, and an error whose path is that directory
    or lies beneath it. *)
Definition loggedBeneath (dirPath : fpath) (l : logline) : Prop :=
  match l with
  | ErrProcessingDirectory d e =>
      exists below deeper, d = dirPath ++ below /\ errorPath e = d ++ deeper
  | _ => False
  end.

(** [locates items p n]: following the names of [p] from the listing [items]
    leads to the node [n]. *)
Inductive locates : list (string * node) -> list string -> node -> Prop :=
| locates_here items item child :
    In (item, child) items -> locates items [item] child
| locates_below items item child p n :
    In (item, child) items -> locates (childItems child) p n ->
    locates items (item :: p) n.

(** Every byte of the string is an ASCII character. *)
Fixpoint isAscii (s : string) : bool :=
  match s with
  | EmptyString => true
  | String c s' => (nat_of_ascii c <? 128)%nat && isAscii s'
  end.

(** * Properties *)

#[local] Arguments String.append : simpl nomatch.

(** ** Splitting and joining *)

Section SplitJoin.

Variable p : ascii -> bool.

Lemma split_not_nil s : Js.split p s <> [].
Proof.
  destruct s as [|c s]; simpl; [discriminate|].
  destruct (p c); [discriminate|].
  destruct (Js.split p s); discriminate.
Qed.

Lemma split_free s : noneOf p s = true -> Js.split p s = [s].
Proof.
  induction s as [|c s IH]; simpl; [reflexivity|].
  intros H. apply andb_true_iff in H as [Hc Hs].
  apply negb_true_iff in Hc. rewrite Hc, (IH Hs). reflexivity.
Qed.

Lemma split_free_sep s c t :
  noneOf p s = true -> p c = true ->
  Js.split p (s +:+ String c t) = s :: Js.split p t.
Proof.
  intros Hs Hc. induction s as [|a s IH]; simpl.
  - rewrite Hc. reflexivity.
  - simpl in Hs. apply andb_true_iff in Hs as [Ha Hs].
    apply negb_true_iff in Ha. rewrite Ha, (IH Hs). reflexivity.
Qed.

Lemma split_join c segs :
  p c = true -> segs <> [] ->
  Forall (fun s => noneOf p s = true) segs ->
  Js.split p (Js.join (String c EmptyString) segs) = segs.
Proof.
  intros Hc Hne Hall. induction Hall as [|s segs Hs Hall IH]; [congruence|].
  destruct segs as [|s' segs].
  - simpl. apply split_free, Hs.
  - change (Js.join (String c EmptyString) (s :: s' :: segs))
      with (s +:+ String c (Js.join (String c EmptyString) (s' :: segs))).
    rewrite split_free_sep by assumption.
    rewrite IH by discriminate. reflexivity.
Qed.

Lemma split_pieces_free s : Forall (fun x => noneOf p x = true) (Js.split p s).
Proof.
  induction s as [|c s IH]; simpl.
  - constructor; [reflexivity|constructor].
  - destruct (p c) eqn:Hc.
    + constructor; [reflexivity|exact IH].
    + destruct (Js.split p s) as [|h t].
      * constructor; [simpl; rewrite Hc; reflexivity|constructor].
      * inversion IH; subst. constructor; [|assumption].
        simpl. rewrite Hc. assumption.
Qed.

End SplitJoin.

Lemma filter_truthy_id segs :
  Forall (fun s => Js.truthy s = true) segs -> List.filter Js.truthy segs = segs.
Proof.
  induction 1 as [|s segs Hs _ IH]; simpl; [reflexivity|].
  rewrite Hs, IH. reflexivity.
Qed.

Lemma isSegment_truthy s : isSegment s = true -> Js.truthy s = true.
Proof. unfold isSegment. intros H. apply andb_true_iff in H. tauto. Qed.

Lemma isSegment_free s : isSegment s = true -> noneOf isSlash s = true.
Proof. unfold isSegment. intros H. apply andb_true_iff in H. tauto. Qed.

Lemma isSlash_sepChar pf : isSlash (sepChar pf) = true.
Proof. destruct pf; reflexivity. Qed.

(** The segments [normalizePath] keeps. *)
Lemma normalizePath_segments x :
  Forall (fun s => isSegment s = true) (List.filter Js.truthy (Js.split isSlash x)).
Proof.
  pose proof (split_pieces_free isSlash x) as H.
  induction H as [|s l Hs _ IH]; simpl; [constructor|].
  destruct (Js.truthy s) eqn:Ht; [|exact IH].
  constructor; [|exact IH]. unfold isSegment. rewrite Ht, Hs. reflexivity.
Qed.

(** Joined segments are already normal. *)
Lemma normalizePath_join pf segs :
  Forall (fun s => isSegment s = true) segs ->
  normalizePath pf (Js.join (path_sep pf) segs) = Js.join (path_sep pf) segs.
Proof.
  intros Hall. unfold normalizePath.
  destruct segs as [|s segs]; [reflexivity|].
  unfold path_sep at 2. rewrite (split_join isSlash).
  - rewrite filter_truthy_id; [reflexivity|].
    eapply Forall_impl; [exact Hall|]. intros a. apply isSegment_truthy.
  - apply isSlash_sepChar.
  - discriminate.
  - eapply Forall_impl; [exact Hall|]. intros a. apply isSegment_free.
Qed.

Lemma split_sameUpToSeparator x y :
  sameUpToSeparator x y = true -> Js.split isSlash x = Js.split isSlash y.
Proof.
  revert y. induction x as [|a x IH]; intros [|b y] H; simpl in H; try discriminate.
  - reflexivity.
  - apply andb_true_iff in H as [Hab Hxy]. specialize (IH _ Hxy). simpl.
    apply orb_true_iff in Hab as [Hab|Hab].
    + apply Ascii.eqb_eq in Hab. subst b. rewrite IH. reflexivity.
    + apply andb_true_iff in Hab as [Ha Hb]. rewrite Ha, Hb, IH. reflexivity.
Qed.

(** C9. [normalizePath] is idempotent, and two inputs that differ only in
    which of the two separators stands at each separator position have the
    same normal form; so [a/b\c] and [a\b/c] do. *)
Theorem normalizePath_idempotent_separator_agnostic (pf : platform) (x : string) :
  normalizePath pf (normalizePath pf x) = normalizePath pf x
  /\ (forall y, sameUpToSeparator x y = true -> normalizePath pf x = normalizePath pf y)
  /\ normalizePath pf "a/b\c" = normalizePath pf "a\b/c".
Proof.
  split; [|split].
  - unfold normalizePath at 2 3. apply normalizePath_join, normalizePath_segments.
  - intros y Hxy. unfold normalizePath. rewrite (split_sameUpToSeparator x y Hxy). reflexivity.
  - destruct pf; reflexivity.
Qed.

Lemma normalizePath_idempotent_separator_agnostic_witness :
  sameUpToSeparator "src\\lib/x.js" "src/\lib\x.js" = true
  /\ normalizePath Win32 "src\\lib/x.js" = normalizePath Win32 "src/\lib\x.js".
Proof.
  split; [reflexivity|].
  apply (proj1 (proj2 (normalizePath_idempotent_separator_agnostic Win32 "src\\lib/x.js"))
           "src/\lib\x.js").
  reflexivity.
Defined.

(** ** String helpers *)

Lemma string_app_assoc (a b c : string) : (a +:+ b) +:+ c = a +:+ (b +:+ c).
Proof. induction a as [|x a IH]; simpl; [reflexivity|]. f_equal. exact IH. Qed.

Lemma string_app_nil_r (a : string) : a +:+ "" = a.
Proof. induction a as [|x a IH]; simpl; [reflexivity|]. f_equal. exact IH. Qed.

Lemma string_app_inv_head (a b c : string) : a +:+ b = a +:+ c -> b = c.
Proof. induction a as [|x a IH]; simpl; [tauto|]. intros H. injection H. exact IH. Qed.

Lemma startsWith_app (d x y : string) :
  Js.startsWith (d +:+ x) (d +:+ y) = Js.startsWith x y.
Proof.
  induction d as [|a d IH]; simpl; [reflexivity|].
  rewrite Ascii.eqb_refl. exact IH.
Qed.

Lemma startsWith_prefix (d x : string) : Js.startsWith (d +:+ x) d = true.
Proof.
  rewrite <- (string_app_nil_r d) at 2. rewrite startsWith_app. destruct x; reflexivity.
Qed.

Lemma endsWithChar_app (a : string) (c : ascii) :
  Js.endsWithChar (a +:+ String c "") c = true.
Proof.
  induction a as [|x a IH]; simpl; [apply Ascii.eqb_refl|].
  destruct (a +:+ String c "") eqn:E; [destruct a; discriminate|exact IH].
Qed.

Lemma dropLast_app (a : string) (c : ascii) : Js.dropLast (a +:+ String c "") = a.
Proof.
  induction a as [|x a IH]; simpl; [reflexivity|].
  destruct (a +:+ String c "") eqn:E; [destruct a; discriminate|].
  rewrite IH. reflexivity.
Qed.

Lemma endsWithChar_app_r (a b : string) (c : ascii) :
  b <> "" -> Js.endsWithChar (a +:+ b) c = Js.endsWithChar b c.
Proof.
  intros Hb. induction a as [|x a IH]; simpl; [reflexivity|].
  destruct (a +:+ b) eqn:E; [destruct a; simpl in E; congruence|exact IH].
Qed.

Lemma endsWithChar_free (p : ascii -> bool) (s : string) (c : ascii) :
  noneOf p s = true -> p c = true -> Js.endsWithChar s c = false.
Proof.
  intros Hs Hc. induction s as [|x s IH]; simpl; [reflexivity|].
  simpl in Hs. apply andb_true_iff in Hs as [Hx Hs].
  destruct s as [|y s].
  - apply Ascii.eqb_neq. intros ->. rewrite Hc in Hx. discriminate.
  - apply IH, Hs.
Qed.

Lemma join_cons2 sep a b l : Js.join sep (a :: b :: l) = a +:+ sep +:+ Js.join sep (b :: l).
Proof. reflexivity. Qed.

Lemma join_truthy sep s l : Js.truthy s = true -> Js.join sep (s :: l) <> "".
Proof. destruct s; [discriminate|]. destruct l; discriminate. Qed.

(** A normal form never ends in a separator. *)
Lemma join_segments_no_trailing_separator sep segs c :
  Forall (fun s => isSegment s = true) segs -> isSlash c = true ->
  Js.endsWithChar (Js.join sep segs) c = false.
Proof.
  intros Hall Hc. induction Hall as [|s segs Hs Hall IH]; [reflexivity|].
  destruct segs as [|s' segs].
  - simpl. eapply endsWithChar_free; [apply isSegment_free, Hs|exact Hc].
  - rewrite join_cons2, <- string_app_assoc, endsWithChar_app_r; [exact IH|].
    inversion Hall; subst. apply join_truthy, isSegment_truthy. assumption.
Qed.

Lemma normalizePath_no_trailing_separator pf x :
  Js.endsWithChar (normalizePath pf x) (sepChar pf) = false.
Proof.
  apply join_segments_no_trailing_separator;
    [apply normalizePath_segments|apply isSlash_sepChar].
Qed.

(** ** The exclusion list as the script reads it *)

Definition addLine (pf : platform) (acc : gset string) (line : string) : gset string :=
  let trimmedLine := Js.trim line in
  if Js.truthy trimmedLine then acc ∪ {[ normalizePath pf trimmedLine ]} else acc.

Lemma addLines_no_marker pf lines (acc : gset string) :
  (forall e, e ∈ acc -> Js.endsWithChar e (sepChar pf) = false) ->
  forall e, e ∈ fold_left (addLine pf) lines acc -> Js.endsWithChar e (sepChar pf) = false.
Proof.
  revert acc. induction lines as [|l lines IH]; intros acc Hacc; simpl; [exact Hacc|].
  apply IH. unfold addLine. destruct (Js.truthy (Js.trim l)); [|exact Hacc].
  intros e He. apply elem_of_union in He as [He|He]; [apply Hacc, He|].
  apply elem_of_singleton in He. subst e. apply normalizePath_no_trailing_separator.
Qed.

Lemma getExclusionList_returns pf root basePath w :
  exists S w',
    getExclusionList pf root basePath w = (Returned S, w')
    /\ (exists logs, w' = mkWorld (rowIndex w) (worksheet w) (autoFilterTo w)
                                  (console w ++ logs) (disk w))
    /\ forall e, e ∈ S -> Js.endsWithChar e (sepChar pf) = false.
Proof.
  assert (Hdef : forall e : string,
             e ∈ ({[ exclusionFileName ]} : gset string) ->
             Js.endsWithChar e (sepChar pf) = false).
  { intros e He. apply elem_of_singleton in He. subst e. destruct pf; reflexivity. }
  assert (Hw : w = mkWorld (rowIndex w) (worksheet w) (autoFilterTo w)
                           (console w ++ []) (disk w)).
  { destruct w. simpl. rewrite app_nil_r. reflexivity. }
  unfold getExclusionList, tryCatch.
  destruct (existsSync root exclusionFileName).
  - unfold bind, lift. destruct (readFileSync root basePath exclusionFileName) as [content|err].
    + eexists _, w. split; [reflexivity|]. split; [exists []; exact Hw|].
      apply (addLines_no_marker pf _ _ Hdef).
    + eexists _, _. split; [reflexivity|]. split; [eexists; reflexivity|exact Hdef].
  - eexists _, w. split; [reflexivity|]. split; [exists []; exact Hw|exact Hdef].
Qed.


(** ** Directory entries of an exclusion set *)

Lemma split_app_separator p a c b :
  p c = true -> Js.split p (a +:+ String c b) = Js.split p a ++ Js.split p b.
Proof.
  intros Hc. induction a as [|x a IH]; simpl.
  - rewrite Hc. reflexivity.
  - destruct (p x); rewrite IH; [reflexivity|].
    pose proof (split_not_nil p a) as Hne.
    destruct (Js.split p a); [congruence|reflexivity].
Qed.

Lemma split_free_app p s t :
  noneOf p s = true ->
  Js.split p (s +:+ t) = (s +:+ hd "" (Js.split p t)) :: tl (Js.split p t).
Proof.
  intros Hs. induction s as [|x s IH]; simpl.
  - pose proof (split_not_nil p t). destruct (Js.split p t); [congruence|reflexivity].
  - simpl in Hs. apply andb_true_iff in Hs as [Hx Hs]. apply negb_true_iff in Hx.
    rewrite Hx, (IH Hs). reflexivity.
Qed.

Lemma normalizePath_segmentsOf pf x :
  normalizePath pf x = Js.join (path_sep pf) (segmentsOf x).
Proof. reflexivity. Qed.

Lemma segmentsOf_app_separator a c b :
  isSlash c = true -> segmentsOf (a +:+ String c b) = segmentsOf a ++ segmentsOf b.
Proof.
  intros Hc. unfold segmentsOf. rewrite split_app_separator by exact Hc.
  apply List.filter_app.
Qed.

Lemma segmentsOf_segment s : isSegment s = true -> segmentsOf s = [s].
Proof.
  intros Hs. unfold segmentsOf. rewrite split_free by (apply isSegment_free, Hs).
  simpl. rewrite (isSegment_truthy s Hs). reflexivity.
Qed.

Lemma join_app sep l1 l2 :
  l1 <> [] -> l2 <> [] ->
  Js.join sep (l1 ++ l2) = Js.join sep l1 +:+ sep +:+ Js.join sep l2.
Proof.
  intros H1 H2. induction l1 as [|a l1 IH]; [congruence|].
  destruct l1 as [|b l1].
  - destruct l2; [congruence|reflexivity].
  - change ((a :: b :: l1) ++ l2) with (a :: b :: (l1 ++ l2)).
    rewrite !join_cons2. change (b :: l1 ++ l2) with ((b :: l1) ++ l2).
    rewrite IH by discriminate. rewrite !string_app_assoc. reflexivity.
Qed.

Lemma join_nil_iff sep l :
  Forall (fun s => isSegment s = true) l -> Js.join sep l = "" -> l = [].
Proof.
  intros Hall H. destruct l as [|s l]; [reflexivity|].
  inversion Hall; subst. exfalso. eapply join_truthy; [|exact H].
  apply isSegment_truthy. assumption.
Qed.

(** A normal form is the join of its own segments. *)
Lemma normal_form_segments pf d :
  normalizePath pf d = d ->
  d = Js.join (path_sep pf) (segmentsOf d)
  /\ Forall (fun s => isSegment s = true) (segmentsOf d).
Proof.
  intros H. split; [symmetry; exact H|apply normalizePath_segments].
Qed.

(** Below a normal form: the path is the form itself or continues it after
    a separator. *)
Lemma normalizePath_descendant pf d suffix :
  normalizePath pf d = d -> d <> "" ->
  normalizePath pf (d +:+ path_sep pf +:+ suffix) = d
  \/ exists rest, normalizePath pf (d +:+ path_sep pf +:+ suffix) = (d +:+ path_sep pf) +:+ rest.
Proof.
  intros Hd Hne. rewrite (normalizePath_segmentsOf pf (d +:+ _)).
  change (d +:+ path_sep pf +:+ suffix) with (d +:+ String (sepChar pf) suffix).
  rewrite segmentsOf_app_separator by apply isSlash_sepChar.
  destruct (segmentsOf suffix) as [|s l] eqn:E.
  - left. rewrite app_nil_r, <- normalizePath_segmentsOf. exact Hd.
  - right. exists (Js.join (path_sep pf) (s :: l)).
    rewrite join_app.
    + rewrite <- normalizePath_segmentsOf, Hd, string_app_assoc. reflexivity.
    + intros Hnil. apply Hne. rewrite <- Hd, normalizePath_segmentsOf, Hnil. reflexivity.
    + discriminate.
Qed.

Lemma join_head_app sep a b l : Js.join sep ((a +:+ b) :: l) = a +:+ Js.join sep (b :: l).
Proof. destruct l; [reflexivity|]. rewrite !join_cons2, string_app_assoc. reflexivity. Qed.

Lemma truthy_app_r a b : Js.truthy b = true -> Js.truthy (a +:+ b) = true.
Proof. destruct a; [tauto|reflexivity]. Qed.

Lemma beginsOutsideSeparator_truthy z : beginsOutsideSeparator z = true -> Js.truthy z = true.
Proof. destruct z; [discriminate|reflexivity]. Qed.

Lemma beginsOutsideSeparator_join sep h l :
  beginsOutsideSeparator h = true -> beginsOutsideSeparator (Js.join sep (h :: l)) = true.
Proof. destruct h; [discriminate|]. destruct l; simpl; tauto. Qed.

(** Beside a normal form: the path continues it with a character that is
    not a separator. *)
Lemma normalizePath_sibling_segments pf segs y :
  Forall (fun s => isSegment s = true) segs -> segs <> [] ->
  beginsOutsideSeparator y = true ->
  exists z, beginsOutsideSeparator z = true
            /\ normalizePath pf (Js.join (path_sep pf) segs +:+ y)
               = Js.join (path_sep pf) segs +:+ z.
Proof.
  intros Hall Hne Hy. induction Hall as [|s segs Hs Hall IH]; [congruence|].
  destruct segs as [|s' segs].
  - destruct y as [|c y]; [discriminate|]. simpl in Hy. apply negb_true_iff in Hy.
    pose proof (split_not_nil isSlash y) as Hnil.
    destruct (Js.split isSlash y) as [|h t] eqn:E; [congruence|].
    exists (Js.join (path_sep pf) (String c h :: List.filter Js.truthy t)).
    split; [apply beginsOutsideSeparator_join; simpl; rewrite Hy; reflexivity|].
    rewrite normalizePath_segmentsOf. unfold segmentsOf.
    rewrite split_free_app by (apply isSegment_free, Hs).
    simpl Js.split. rewrite Hy, E. simpl hd. simpl tl. simpl Js.join at 2 3.
    simpl List.filter. rewrite truthy_app_r by reflexivity.
    apply join_head_app.
  - destruct (IH ltac:(discriminate)) as (z & Hz & Hnorm).
    exists z. split; [exact Hz|].
    rewrite join_cons2, !string_app_assoc.
    set (J := Js.join (path_sep pf) (s' :: segs)) in *.
    change (s +:+ path_sep pf +:+ J +:+ y) with (s +:+ String (sepChar pf) (J +:+ y)).
    rewrite normalizePath_segmentsOf, segmentsOf_app_separator by apply isSlash_sepChar.
    rewrite segmentsOf_segment by exact Hs.
    rewrite join_app.
    + rewrite <- normalizePath_segmentsOf, Hnorm. reflexivity.
    + discriminate.
    + intros Hnil. rewrite normalizePath_segmentsOf, Hnil in Hnorm.
      symmetry in Hnorm. destruct z; [discriminate|].
      subst J. destruct (Js.join (path_sep pf) (s' :: segs)); discriminate.
Qed.

Lemma shouldExclude_true_iff pf itemPath (S : gset string) :
  shouldExclude pf itemPath S = true
  <-> normalizePath pf itemPath ∈ S
      \/ exists e, e ∈ S /\ matchesDirectoryEntry pf (normalizePath pf itemPath) e = true.
Proof.
  unfold shouldExclude. case_bool_decide as Hin.
  - split; [left; exact Hin|reflexivity].
  - rewrite existsb_exists. split.
    + intros (e & He & Hm). right. exists e. split; [|exact Hm].
      apply elem_of_elements, list_elem_of_In, He.
    + intros [Hin'|(e & He & Hm)]; [contradiction|].
      exists e. split; [|exact Hm]. apply list_elem_of_In, elem_of_elements, He.
Qed.

Lemma matchesDirectoryEntry_marker pf n d :
  matchesDirectoryEntry pf n (d +:+ path_sep pf)
  = String.eqb n d || Js.startsWith n (d +:+ path_sep pf).
Proof.
  unfold matchesDirectoryEntry, path_sep. rewrite endsWithChar_app, dropLast_app. reflexivity.
Qed.

Lemma sibling_not_matched pf d z :
  beginsOutsideSeparator z = true ->
  d +:+ z <> d +:+ path_sep pf
  /\ matchesDirectoryEntry pf (d +:+ z) (d +:+ path_sep pf) = false.
Proof.
  intros Hz. destruct z as [|c z]; [discriminate|]. simpl in Hz.
  apply negb_true_iff in Hz.
  assert (Hc : Ascii.eqb c (sepChar pf) = false).
  { apply Ascii.eqb_neq. intros ->. rewrite isSlash_sepChar in Hz. discriminate. }
  split.
  - intros H. apply string_app_inv_head in H. unfold path_sep in H.
    injection H as H _. subst c. rewrite Ascii.eqb_refl in Hc. discriminate.
  - rewrite matchesDirectoryEntry_marker. apply orb_false_iff. split.
    + apply String.eqb_neq. intros H.
      rewrite <- (string_app_nil_r d) in H at 2.
      apply string_app_inv_head in H. discriminate.
    + rewrite startsWith_app. unfold path_sep. simpl. rewrite Hc. reflexivity.
Qed.

(** C6, as the code has it.  Let the set hold the entry [d] followed by the
    separator, where [d] is a non-empty path in normal form.  Then [d] itself
    and every path that continues [d] after a separator are excluded; for a
    path that continues [d] with a character that is not a separator this
    entry never matches, so the answer is that of the set without the entry,
    and [false] when the entry is alone; and [src/lib], as an exact entry or
    as a directory entry, does not exclude [src/library]. *)
Theorem shouldExclude_directory_entry (pf : platform) (S : gset string) (d : string)
    (Hnormal : normalizePath pf d = d) (Hnonempty : Js.truthy d = true)
    (Hentry : d +:+ path_sep pf ∈ S) :
  shouldExclude pf d S = true
  /\ (forall suffix, shouldExclude pf (d +:+ path_sep pf +:+ suffix) S = true)
  /\ (forall y, beginsOutsideSeparator y = true ->
        shouldExclude pf (d +:+ y) S = shouldExclude pf (d +:+ y) (S ∖ {[ d +:+ path_sep pf ]}))
  /\ (forall y, beginsOutsideSeparator y = true ->
        shouldExclude pf (d +:+ y) {[ d +:+ path_sep pf ]} = false)
  /\ shouldExclude pf "src/library" {[ "src/lib" ]} = false
  /\ shouldExclude pf "src/library" {[ normalizePath pf "src/lib" +:+ path_sep pf ]} = false.
Proof.
  assert (Hd : d <> "") by (intros ->; discriminate).
  assert (Hsib : forall y, beginsOutsideSeparator y = true ->
            normalizePath pf (d +:+ y) <> d +:+ path_sep pf
            /\ matchesDirectoryEntry pf (normalizePath pf (d +:+ y)) (d +:+ path_sep pf) = false).
  { intros y Hy. destruct (normal_form_segments pf d Hnormal) as [Hjoin Hsegs].
    destruct (normalizePath_sibling_segments pf (segmentsOf d) y Hsegs) as (z & Hz & Hn).
    - intros Hnil. rewrite Hnil in Hjoin. contradiction.
    - exact Hy.
    - rewrite <- Hjoin in Hn. rewrite Hn. apply sibling_not_matched, Hz. }
  repeat split.
  - apply shouldExclude_true_iff. right. exists (d +:+ path_sep pf).
    split; [exact Hentry|]. rewrite matchesDirectoryEntry_marker, Hnormal, String.eqb_refl.
    reflexivity.
  - intros suffix. apply shouldExclude_true_iff. right. exists (d +:+ path_sep pf).
    split; [exact Hentry|]. rewrite matchesDirectoryEntry_marker.
    destruct (normalizePath_descendant pf d suffix Hnormal Hd) as [->|(rest & ->)].
    + rewrite String.eqb_refl. reflexivity.
    + rewrite startsWith_prefix. apply orb_true_r.
  - intros y Hy. destruct (Hsib y Hy) as [Hne Hm].
    apply eq_true_iff_eq. rewrite !shouldExclude_true_iff. split.
    + intros [Hin|(e & He & Hme)].
      * left. apply elem_of_difference. split; [exact Hin|].
        intros Heq. apply elem_of_singleton in Heq. contradiction.
      * right. exists e. split; [|exact Hme].
        apply elem_of_difference. split; [exact He|].
        intros Heq. apply elem_of_singleton in Heq. subst e. congruence.
    + intros [Hin|(e & He & Hme)].
      * left. apply elem_of_difference in Hin as [Hin _]. exact Hin.
      * right. exists e. split; [|exact Hme].
        apply elem_of_difference in He as [He _]. exact He.
  - intros y Hy. destruct (Hsib y Hy) as [Hne Hm].
    apply not_true_is_false. rewrite shouldExclude_true_iff.
    intros [Hin|(e & He & Hme)].
    + apply elem_of_singleton in Hin. contradiction.
    + apply elem_of_singleton in He. subst e. congruence.
  - destruct pf; vm_compute; reflexivity.
  - destruct pf; vm_compute; reflexivity.
Qed.

Lemma shouldExclude_directory_entry_witness :
  shouldExclude Posix "build" {[ "build/" ]} = true
  /\ shouldExclude Posix "build/output.txt" {[ "build/" ]} = true
  /\ shouldExclude Posix "builder/output.txt" {[ "build/" ]} = false.
Proof.
  assert (Hentry : "build" +:+ path_sep Posix ∈ ({[ "build/" ]} : gset string)).
  { apply elem_of_singleton. reflexivity. }
  destruct (shouldExclude_directory_entry Posix {[ "build/" ]} "build"
              eq_refl eq_refl Hentry) as (H1 & H2 & _ & H4 & _).
  split; [exact H1|]. split; [exact (H2 "output.txt")|exact (H4 "er/output.txt" eq_refl)].
Defined.

(** C6 does not hold for every entry that ends in the separator: the entry
    that is the separator alone excludes nothing beneath it, an entry that
    is not in normal form does not exclude its own stripped form, and
    another entry of the set may exclude the path next to the directory. *)
Lemma shouldExclude_directory_entry_counterexample :
  shouldExclude Posix ("" +:+ "/" +:+ "x") {[ "/" ]} = false
  /\ shouldExclude Posix "a//b" {[ "a//b/" ]} = false
  /\ shouldExclude Posix ("build" +:+ "er") {[ "build/"; "builder" ]} = true.
Proof. vm_compute. repeat split; reflexivity. Qed.

(** ** The extension of a file name *)

Module ExtnameFacts.
Import Extname ExtnameScan.

Lemma indexedFrom_cons k c cs :
  indexedFrom k (c :: cs) = (Z.of_nat k, c) :: indexedFrom (S k) cs.
Proof. reflexivity. Qed.

Lemma scan_app_free pf l1 l2 st :
  Forall (fun ic => isPathSeparator pf (snd ic) = false) l1 ->
  scan pf (l1 ++ l2) st = scan pf l2 (scan pf l1 st).
Proof.
  intros Hall. revert st. induction Hall as [|[i c] l1 Hc _ IH]; intros st; [reflexivity|].
  simpl in Hc. simpl. rewrite Hc. apply IH.
Qed.

Lemma indexedFrom_free pf k s :
  noneOf (isPathSeparator pf) s = true ->
  Forall (fun ic => isPathSeparator pf (snd ic) = false)
         (rev (indexedFrom k (list_ascii_of_string s))).
Proof.
  revert k. induction s as [|c s IH]; intros k Hs; [constructor|].
  simpl in Hs. apply andb_true_iff in Hs as [Hc Hs]. apply negb_true_iff in Hc.
  simpl list_ascii_of_string. rewrite indexedFrom_cons. simpl rev.
  apply Forall_app. split; [apply IH, Hs|]. constructor; [exact Hc|constructor].
Qed.

Lemma scan_last_free pf c i l st :
  Forall (fun ic => isPathSeparator pf (snd ic) = false) l ->
  isPathSeparator pf c = false ->
  scan pf (l ++ [(i, c)]) st = step i c (scan pf l st).
Proof.
  intros Hl Hc. rewrite scan_app_free by exact Hl. simpl. rewrite Hc. reflexivity.
Qed.

Ltac caseZ :=
  repeat match goal with
         | |- context [Z.eqb ?a ?b] =>
             destruct (Z.eqb_spec a b);
             cbn [startDot startPart endIdx matchedSlash preDotState negb] in *
         end.

Lemma step_scanned k c s st :
  scanned (S k) s st -> scanned k (String c s) (step (Z.of_nat k) c st).
Proof.
  destruct st as [sd sp e ms pd]. unfold scanned, step.
  cbn [startDot startPart endIdx matchedSlash preDotState].
  intros (Hpart & Hend & Hdot). simpl lastDot. simpl String.length.
  destruct s as [|c' s'].
  - destruct Hend as [-> ->]. simpl in Hdot. destruct Hdot as [-> ->].
    destruct (Ascii.eqb c "."%char); caseZ;
      repeat split; try assumption; try reflexivity; simpl; lia.
  - destruct Hend as [-> ->].
    destruct (lastDot (String c' s')) as [[j t]|].
    + destruct Hdot as [-> Hpd].
      destruct (Ascii.eqb c "."%char); caseZ;
        repeat split; try assumption; try reflexivity; simpl; lia.
    + destruct Hdot as [-> ->].
      destruct (Ascii.eqb c "."%char); caseZ;
        repeat split; try assumption; try reflexivity; simpl; lia.
Qed.

Lemma scan_scanned pf k s :
  noneOf (isPathSeparator pf) s = true ->
  scanned k s (scan pf (rev (indexedFrom k (list_ascii_of_string s))) init).
Proof.
  revert k. induction s as [|c s IH]; intros k Hs.
  - repeat split.
  - simpl in Hs. apply andb_true_iff in Hs as [Hc Hs]. apply negb_true_iff in Hc.
    simpl list_ascii_of_string. rewrite indexedFrom_cons. simpl rev.
    rewrite scan_last_free by (try apply indexedFrom_free; assumption).
    apply step_scanned, IH, Hs.
Qed.

Lemma lastDot_length s j t :
  lastDot s = Some (j, t) -> String.length s = j + 1 + String.length t.
Proof.
  revert j. induction s as [|c s IH]; intros j; simpl; [discriminate|].
  destruct (lastDot s) as [[j' t']|].
  - intros [= <- <-]. rewrite (IH j' eq_refl). lia.
  - destruct (Ascii.eqb c "."%char); [|discriminate]. intros [= <- <-]. reflexivity.
Qed.

Lemma substring_all s : substring 0 (String.length s) s = s.
Proof. induction s as [|c s IH]; simpl; [reflexivity|]. rewrite IH. reflexivity. Qed.

Lemma lastDot_substring s j t :
  lastDot s = Some (j, t) -> substring j (String.length s - j) s = String "."%char t.
Proof.
  revert j. induction s as [|c s IH]; intros j; simpl lastDot; [discriminate|].
  destruct (lastDot s) as [[j' t']|].
  - intros [= <- <-]. simpl. apply IH. reflexivity.
  - destruct (Ascii.eqb_spec c "."%char) as [->|]; [|discriminate].
    intros [= <- <-]. simpl. rewrite substring_all. reflexivity.
Qed.

(** The extension of a plain name is the text after its last dot, unless
    that dot is the first character. *)
Lemma extname_plain pf name :
  plainName pf name = true ->
  Js.slice1 (extname pf name)
  = if onlyLeadingDot name then EmptyString else textAfterLastDot name.
Proof.
  unfold plainName. intros H. apply andb_true_iff in H as [Hfree Hstart].
  apply Nat.eqb_eq in Hstart. unfold extname. rewrite Hstart.
  change (drop 0 (indexed name)) with (indexedFrom 0 (list_ascii_of_string name)).
  change (mk (-1) (Z.of_nat 0) (-1) true 0) with init.
  pose proof (scan_scanned pf 0 name Hfree) as Hsc.
  destruct (scan pf (rev (indexedFrom 0 (list_ascii_of_string name))) init)
    as [sd sp e ms pd].
  unfold scanned in Hsc. cbn [startDot startPart endIdx matchedSlash preDotState] in *.
  destruct Hsc as (-> & Hend & Hdot).
  unfold onlyLeadingDot, textAfterLastDot.
  destruct (lastDot name) as [[j t]|] eqn:Hld.
  - destruct Hdot as [-> Hpd].
    pose proof (lastDot_length name j t Hld) as Hlen.
    pose proof (lastDot_substring name j t Hld) as Hsub.
    destruct name as [|c s]; [discriminate|]. destruct Hend as [-> _].
    destruct j as [|j].
    + subst pd. caseZ; try reflexivity; lia.
    + simpl in Hlen.
      destruct (Ascii.eqb c "."%char); subst pd; caseZ; simpl orb; simpl andb; cbv iota.
      all: try lia.
      all: try (destruct t; [reflexivity|simpl in *; lia]).
      all: replace (Z.to_nat (Z.of_nat (0 + S j))) with (S j) by lia.
      all: replace (Z.to_nat (Z.of_nat (0 + String.length (String c s)) - Z.of_nat (0 + S j)))
             with (String.length (String c s) - S j) by lia.
      all: rewrite Hsub; reflexivity.
  - destruct Hdot as [-> _]. reflexivity.
Qed.

End ExtnameFacts.

Lemma slice1_toLowerCase e : Js.slice1 (Js.toLowerCase e) = Js.toLowerCase (Js.slice1 e).
Proof. destruct e; reflexivity. Qed.

(** C4, as the code has it.  Without a filter every file passes.  With a
    filter, a plain file name passes iff the lower-cased text after its last
    dot is in the set, where a name that has no dot, or whose only dot is its
    first character (as in [.gitignore]), has the empty extension. *)
Theorem shouldIncludeFile_extension (pf : platform) (exts : gset string) (name : string)
    (Hplain : plainName pf name = true) :
  shouldIncludeFile pf None name = true
  /\ shouldIncludeFile pf (Some exts) name
     = bool_decide (Js.toLowerCase (if onlyLeadingDot name then EmptyString
                                    else textAfterLastDot name) ∈ exts).
Proof.
  split; [reflexivity|]. unfold shouldIncludeFile.
  rewrite slice1_toLowerCase, ExtnameFacts.extname_plain by exact Hplain. reflexivity.
Qed.

Lemma shouldIncludeFile_extension_witness :
  plainName Win32 "Report.final.XLSX" = true
  /\ shouldIncludeFile Win32 (Some {[ "xlsx" ]}) "Report.final.XLSX" = true.
Proof.
  split; [reflexivity|].
  rewrite (proj2 (shouldIncludeFile_extension Win32 {[ "xlsx" ]} "Report.final.XLSX" eq_refl)).
  vm_compute. reflexivity.
Defined.

(** C4 fails on a name whose only dot comes first: the text after the last
    dot of [.gitignore] is [gitignore], yet the filter [gitignore] rejects
    the file, because [path.extname] gives it no extension. *)
Lemma shouldIncludeFile_extension_counterexample :
  textAfterLastDot ".gitignore" = "gitignore"
  /\ includedExtensionsOf "gitignore" = Some {[ "gitignore" ]}
  /\ shouldIncludeFile Posix (Some {[ "gitignore" ]}) ".gitignore" = false
  /\ shouldIncludeFile Win32 (Some {[ "gitignore" ]}) ".gitignore" = false.
Proof. vm_compute. repeat split; reflexivity. Qed.

(** ** The walker, step by step *)

Lemma processDirectory_unfold pf exts n dirPath basePath excludeList level :
  processDirectory pf exts n dirPath basePath excludeList level
  = tryCatch
      (do items <- lift (readdirSync n dirPath);
       do dirHasIncludedFiles <- lift (hasIncludedFiles pf exts n dirPath);
       if negb dirHasIncludedFiles then ret tt
       else processItems pf exts dirPath basePath excludeList level items)
      (fun error => consoleLog (ErrProcessingDirectory dirPath error)).
Proof. destruct n; reflexivity. Qed.

Lemma checkDir_unfold pf exts n currentPath h :
  checkDir pf exts n currentPath h
  = match readdirSync n currentPath with
    | Returned items => checkItems pf exts currentPath items h
    | Thrown e => (Thrown e, h)
    end.
Proof. destruct n; reflexivity. Qed.

Lemma processItems_cons pf exts dirPath basePath excludeList level item child rest :
  processItems pf exts dirPath basePath excludeList level ((item, child) :: rest)
  = (exec processItem pf exts dirPath basePath excludeList level item child;
     processItems pf exts dirPath basePath excludeList level rest).
Proof. reflexivity. Qed.

(** Induction on the filesystem tree. *)
Lemma node_ind_nested (P : node -> Prop)
    (Hfile : forall content, P (FileNode content))
    (Hdir : forall items, Forall (fun ic => P (snd ic)) items -> P (DirNode items))
    (Hnolist : P DirNoList)
    (Hnostat : P NoStat) :
  forall n, P n.
Proof.
  fix IH 1. intros [content|items| |].
  - apply Hfile.
  - apply Hdir. induction items as [|[item child] items IHitems].
    + constructor.
    + constructor; [apply IH|exact IHitems].
  - exact Hnolist.
  - exact Hnostat.
Qed.

(** *** Extending the world *)

Lemma numbered_app k a b :
  numbered k (a ++ b) = numbered k a ++ numbered (k + length a) b.
Proof.
  revert k. induction a as [|x a IH]; intros k; simpl.
  - rewrite Nat.add_0_r. reflexivity.
  - unfold numbered in *. simpl. rewrite IH. rewrite Nat.add_succ_r. reflexivity.
Qed.

Lemma map_snd_numbered k es : map snd (numbered k es) = es.
Proof.
  revert k. induction es as [|e es IH]; intros k; [reflexivity|].
  unfold numbered in *. simpl. rewrite IH. reflexivity.
Qed.

Lemma extend_nil w : extend w [] [] = w.
Proof.
  destruct w. unfold extend. simpl. rewrite Nat.add_0_r, !app_nil_r. reflexivity.
Qed.

Lemma extend_extend w a l b m :
  extend (extend w a l) b m = extend w (a ++ b) (l ++ m).
Proof.
  unfold extend. simpl. rewrite numbered_app, length_app, !Nat.add_assoc, <- !app_assoc.
  reflexivity.
Qed.

Lemma entries_extend w es logs : entries (extend w es logs) = entries w ++ es.
Proof. unfold entries, extend. simpl. rewrite map_app, map_snd_numbered. reflexivity. Qed.

Lemma consoleLog_extend l w : consoleLog l w = (Returned tt, extend w [] [l]).
Proof.
  unfold consoleLog, extend. simpl. rewrite Nat.add_0_r, app_nil_r. reflexivity.
Qed.

Lemma addRow_extend e w : addRow e w = (Returned tt, extend w [e] []).
Proof.
  unfold addRow, extend, numbered. simpl. rewrite Nat.add_1_r, app_nil_r. reflexivity.
Qed.

Lemma preorderAll_app f g : preorderAll (f ++ g) = preorderAll f ++ preorderAll g.
Proof. apply flat_map_app. Qed.

(** *** The rows of a walk are the pre-order of a forest over the listing *)

Section Walk.

Variable pf : platform.
Variable exts : option (gset string).
Variable excludeList : gset string.
Variable basePath : fpath.

Abbreviation shadows' := (shadows pf exts excludeList basePath).
Abbreviation walksTo := (walksTo pf exts excludeList basePath).

Lemma shadows_none dirPath level items : shadows' dirPath level items [].
Proof. induction items as [|[item child] items IH]; constructor. exact IH. Qed.

Lemma processItem_shadows item child :
  walksTo child ->
  forall dirPath level w,
  exists ts logs o,
    processItem pf exts dirPath basePath excludeList level item child w
    = (o, extend w (preorderAll ts) logs)
    /\ forall rest f, shadows' dirPath level rest f ->
                      shadows' dirPath level ((item, child) :: rest) (ts ++ f).
Proof.
  intros IH dirPath level w. unfold processItem.
  set (relativePath := getRelativePath pf (path_join dirPath item) basePath).
  assert (Hskip : forall (o : outcome unit), exists (ts : list etree) (logs' : list logline) o',
             (o, w) = (o', extend w (preorderAll ts) logs')
             /\ forall rest f, shadows' dirPath level rest f ->
                               shadows' dirPath level ((item, child) :: rest) (ts ++ f)).
  { intros o. exists [], [], o. split; [simpl; rewrite extend_nil; reflexivity|].
    intros rest f Hf. apply shadows_skip, Hf. }
  destruct (shouldExclude pf relativePath excludeList) eqn:Hex; [apply Hskip|].
  unfold bind, lift, ret.
  destruct (statSync_isDirectory child (path_join dirPath item)) as [isDirectory|e] eqn:Hstat;
    [|apply Hskip].
  destruct isDirectory; cbn [negb andb]; cbv beta iota.
  - destruct (hasIncludedFiles pf exts child (path_join dirPath item)) as [b|e] eqn:Hhas;
      [|apply Hskip].
    destruct b; cbn [negb]; cbv beta iota; [|apply Hskip].
    rewrite addRow_extend.
    destruct (IH (path_join dirPath item) (level + 1)
                 (extend w [rowFor level true item relativePath] []))
      as (fc & logs & Hrun & Hfc).
    rewrite Hrun, extend_extend.
    exists [ENode (rowFor level true item relativePath) fc], logs, (Returned tt).
    split.
    + unfold preorderAll at 2. simpl. rewrite app_nil_r. reflexivity.
    + intros rest f Hf. apply shadows_dir; assumption.
  - destruct (shouldIncludeFile pf exts item) eqn:Hinc; cbn [negb]; cbv beta iota;
      [|apply Hskip].
    rewrite addRow_extend.
    exists [ENode (rowFor level false item relativePath) []], [], (Returned tt).
    split; [reflexivity|].
    intros rest f Hf. apply shadows_file; assumption.
Qed.

Lemma processItems_shadows items :
  Forall (fun ic => walksTo (snd ic)) items ->
  forall dirPath level w,
  exists f logs o,
    processItems pf exts dirPath basePath excludeList level items w
    = (o, extend w (preorderAll f) logs)
    /\ shadows' dirPath level items f.
Proof.
  induction 1 as [|[item child] items Hchild _ IH]; intros dirPath level w.
  - exists [], [], (Returned tt). split; [|constructor].
    simpl. unfold ret. rewrite extend_nil. reflexivity.
  - rewrite processItems_cons. unfold bind.
    destruct (processItem_shadows item child Hchild dirPath level w)
      as (ts & logs & o & Hrun & Hsh).
    rewrite Hrun. destruct o as [[]|e].
    + destruct (IH dirPath level (extend w (preorderAll ts) logs))
        as (f & logs' & o' & Hrun' & Hf).
      rewrite Hrun', extend_extend, <- preorderAll_app.
      exists (ts ++ f), (logs ++ logs'), o'. split; [reflexivity|]. apply Hsh, Hf.
    + exists ts, logs, (Thrown e). split; [reflexivity|].
      rewrite <- (app_nil_r ts). apply Hsh, shadows_none.
Qed.

Lemma processDirectory_shadows n : walksTo n.
Proof.
  induction n as [content|items IH| |] using node_ind_nested;
    intros dirPath level w; rewrite processDirectory_unfold.
  1,3,4: unfold tryCatch, bind, lift; cbn [readdirSync]; rewrite consoleLog_extend;
         exists [], [ErrProcessingDirectory dirPath (Escandir dirPath)];
         split; [reflexivity|constructor].
  unfold tryCatch, bind, lift. simpl readdirSync.
  destruct (hasIncludedFiles pf exts (DirNode items) dirPath) as [b|e].
  - destruct b; cbn [negb]; cbv beta iota.
    + destruct (processItems_shadows items IH dirPath level w)
        as (f & logs & o & Hrun & Hf).
      rewrite Hrun. destruct o as [[]|e].
      * exists f, logs. split; [reflexivity|exact Hf].
      * rewrite consoleLog_extend, extend_extend, app_nil_r.
        exists f, (logs ++ [ErrProcessingDirectory dirPath e]).
        split; [reflexivity|exact Hf].
    + exists [], []. unfold ret. rewrite extend_nil. split; [reflexivity|].
      apply shadows_none.
  - rewrite consoleLog_extend. exists [], [ErrProcessingDirectory dirPath e].
    split; [reflexivity|apply shadows_none].
Qed.

End Walk.

(** *** A whole run *)

Lemma run_entries pf exts root basePath cwd cwdWritable :
  exists S f,
    fst (getExclusionList pf root basePath initialWorld) = Returned S
    /\ shadows pf exts S basePath basePath 0 (childItems root) f
    /\ worksheet (run pf exts root basePath cwd cwdWritable) = numbered 2 (preorderAll f)
    /\ entries (run pf exts root basePath cwd cwdWritable) = preorderAll f.
Proof.
  destruct (getExclusionList_returns pf root basePath initialWorld)
    as (S & w1 & Hget & (logs & Hw1) & _).
  simpl in Hw1.
  set (w2 := mkWorld 2 [] None
               ((logs ++ [LogExcludedItems S])
                ++ match exts with Some e => [LogIncludingOnly e] | None => [] end) []).
  destruct (processDirectory_shadows pf exts S basePath root basePath 0 w2)
    as (f & logs' & Hwalk & Hf).
  exists S, f. rewrite Hget. split; [reflexivity|]. split; [exact Hf|].
  assert (Hrun : worksheet (run pf exts root basePath cwd cwdWritable)
                 = numbered 2 (preorderAll f)).
  { unfold run, generateExcel, tryCatch, bind. rewrite Hget, Hw1.
    unfold consoleLog at 1. cbn [rowIndex worksheet autoFilterTo console disk].
    assert (Hlog : (match exts with
                    | Some e => consoleLog (LogIncludingOnly e)
                    | None => ret tt
                    end) (mkWorld 2 [] None (logs ++ [LogExcludedItems S]) [])
                   = (Returned tt, w2)).
    { unfold w2. destruct exts; [reflexivity|].
      unfold ret. rewrite app_nil_r. reflexivity. }
    rewrite Hlog, Hwalk. unfold setAutoFilter, writeFile.
    destruct cwdWritable; reflexivity. }
  split; [exact Hrun|]. unfold entries. rewrite Hrun. apply map_snd_numbered.
Qed.

(** C8. The entries of a run are the pre-order of a forest over the listing
    of the root: every entry is followed at once by what was emitted beneath
    it, first child first, and the trees of one directory follow the order
    of its listing; the rows are numbered from 2 on without a gap.  For the
    root [{z, a, dir1/{c}}] the order is [z], [a], [dir1/], [dir1/c]. *)
Theorem entries_in_preorder_of_listing (pf : platform) (exts : option (gset string))
    (root : node) (basePath cwd : fpath) (cwdWritable : bool) :
  (exists S f,
      fst (getExclusionList pf root basePath initialWorld) = Returned S
      /\ shadows pf exts S basePath basePath 0 (childItems root) f
      /\ worksheet (run pf exts root basePath cwd cwdWritable) = numbered 2 (preorderAll f)
      /\ entries (run pf exts root basePath cwd cwdWritable) = preorderAll f)
  /\ map e_path
         (entries (run pf None
                       (DirNode [("z", FileNode None); ("a", FileNode None);
                                 ("dir1", DirNode [("c", FileNode None)])])
                       ["home"; "project"] ["home"] true))
     = ["z"; "a"; "dir1/"; "dir1/c"].
Proof.
  split; [apply run_entries|]. destruct pf; vm_compute; reflexivity.
Qed.

(** *** Names *)

Lemma namesBelow_cons item child rest k :
  namesBelow (DirNode ((item, child) :: rest)) k
  = match k with O => [item] | S k' => namesBelow child k' end
    ++ namesBelow (DirNode rest) k.
Proof. destruct k; reflexivity. Qed.

Lemma namesBelow_childItems n k : namesBelow (DirNode (childItems n)) k = namesBelow n k.
Proof. destruct n; destruct k; reflexivity. Qed.

Lemma preorderAll_cons e children f :
  preorderAll (ENode e children :: f) = e :: preorderAll children ++ preorderAll f.
Proof. reflexivity. Qed.

Lemma shadows_names pf exts excl basePath dirPath level items f :
  shadows pf exts excl basePath dirPath level items f ->
  forall e, In e (preorderAll f) ->
  exists k item,
    e_level e = level + k
    /\ In item (namesBelow (DirNode items) k)
    /\ e_name e = Js.repeat "  " (e_level e) +:+ item.
Proof.
  induction 1 as [dirPath level
                 |dirPath level item child rest f _ IH
                 |dirPath level item child rest f relativePath _ _ _ _ IH
                 |dirPath level item child rest fc f relativePath _ _ _ _ IHc _ IH];
    intros e He.
  - destruct He.
  - destruct (IH e He) as (k & x & Hl & Hx & Hn). exists k, x.
    rewrite namesBelow_cons. split; [exact Hl|]. split; [|exact Hn].
    apply in_or_app. right. exact Hx.
  - rewrite preorderAll_cons in He. destruct He as [<-|He].
    + exists 0, item. simpl. rewrite Nat.add_0_r. repeat split. left. reflexivity.
    + destruct (IH e He) as (k & x & Hl & Hx & Hn). exists k, x.
      rewrite namesBelow_cons. split; [exact Hl|]. split; [|exact Hn].
      apply in_or_app. right. exact Hx.
  - rewrite preorderAll_cons in He. destruct He as [<-|He].
    + exists 0, item. simpl. rewrite Nat.add_0_r. repeat split. left. reflexivity.
    + apply in_app_or in He as [He|He].
      * destruct (IHc e He) as (k & x & Hl & Hx & Hn). exists (S k), x.
        rewrite namesBelow_cons. split; [lia|]. split; [|exact Hn].
        apply in_or_app. left. rewrite namesBelow_childItems in Hx. exact Hx.
      * destruct (IH e He) as (k & x & Hl & Hx & Hn). exists k, x.
        rewrite namesBelow_cons. split; [exact Hl|]. split; [|exact Hn].
        apply in_or_app. right. exact Hx.
Qed.

(** C5 fails below the first level: the file [f] inside the directory [d]
    is listed under the name [f] and entered under a name that starts with
    two spaces. *)
Lemma entry_name_is_indented_item_counterexample :
  let root := DirNode [("d", DirNode [("f", FileNode None)])] in
  namesBelow root 1 = ["f"]
  /\ entries (run Posix None root ["project"] ["out"] true)
     = [mkEntry 0 "Directory" "d" "d/" "pending";
        mkEntry 1 "File" "  f" "d/f" "pending"].
Proof. vm_compute. split; reflexivity. Qed.

(** *** Levels and parents *)

Lemma noneOf_weaken (p q : ascii -> bool) s :
  (forall c, q c = true -> p c = true) -> noneOf p s = true -> noneOf q s = true.
Proof.
  intros Hqp. induction s as [|c s IH]; simpl; [reflexivity|].
  intros H. apply andb_true_iff in H as [Hc Hs]. rewrite (IH Hs), andb_true_r.
  destruct (q c) eqn:Hq; [|reflexivity]. rewrite (Hqp c Hq) in Hc. discriminate.
Qed.

Lemma validName_truthy pf s : validName pf s = true -> Js.truthy s = true.
Proof. unfold validName. intros H. apply andb_true_iff in H. tauto. Qed.

Lemma validName_no_sep pf s :
  validName pf s = true -> noneOf (Ascii.eqb (sepChar pf)) s = true.
Proof.
  unfold validName. intros H. apply andb_true_iff in H as [_ H].
  eapply noneOf_weaken; [|exact H]. intros c Hc. apply Ascii.eqb_eq in Hc. subst c.
  destruct pf; reflexivity.
Qed.

Lemma validName_no_slash pf s :
  validName pf s = true -> noneOf (fun c => Ascii.eqb c "/"%char) s = true.
Proof.
  unfold validName. intros H. apply andb_true_iff in H as [_ H].
  eapply noneOf_weaken; [|exact H]. intros c Hc. apply Ascii.eqb_eq in Hc. subst c.
  destruct pf; reflexivity.
Qed.

Lemma relativeSegs_below base rel : relativeSegs base (base ++ rel) = rel.
Proof.
  induction base as [|b base IH]; simpl.
  - destruct rel; reflexivity.
  - rewrite String.eqb_refl. exact IH.
Qed.

Lemma getRelativePath_below pf base rel :
  Forall (fun s => validName pf s = true) rel -> rel <> [] ->
  getRelativePath pf (base ++ rel) base = Js.join "/" rel.
Proof.
  intros Hall Hne. unfold getRelativePath, path_relative, path_sep.
  rewrite relativeSegs_below, split_join; [reflexivity| |exact Hne|].
  - apply Ascii.eqb_refl.
  - eapply Forall_impl; [exact Hall|]. intros s. apply validName_no_sep.
Qed.

Lemma pathSegments_join pf rel :
  Forall (fun s => validName pf s = true) rel -> pathSegments (Js.join "/" rel) = rel.
Proof.
  intros Hall. unfold pathSegments. destruct rel as [|s rel]; [reflexivity|].
  rewrite (split_join (fun c => Ascii.eqb c "/"%char) "/"%char);
    [|reflexivity|discriminate|].
  - apply filter_truthy_id. eapply Forall_impl; [exact Hall|].
    intros a. apply validName_truthy.
  - eapply Forall_impl; [exact Hall|]. intros a. apply validName_no_slash.
Qed.

Lemma pathSegments_join_slash pf rel :
  Forall (fun s => validName pf s = true) rel ->
  pathSegments (Js.join "/" rel +:+ "/") = rel.
Proof.
  intros Hall. unfold pathSegments.
  rewrite (split_app_separator (fun c => Ascii.eqb c "/"%char)) by reflexivity.
  rewrite List.filter_app. simpl. rewrite app_nil_r. apply (pathSegments_join pf rel Hall).
Qed.

Lemma stripTrailingSlash_slash p : stripTrailingSlash (p +:+ "/") = p.
Proof. unfold stripTrailingSlash. rewrite endsWithChar_app, dropLast_app. reflexivity. Qed.

(** The entry written for [item] in the directory [rel] below the root. *)
Lemma rowFor_shape pf base rel item isDirectory :
  Forall (fun s => validName pf s = true) rel -> validName pf item = true ->
  let e := rowFor (length rel) isDirectory item
                  (getRelativePath pf (path_join (base ++ rel) item) base) in
  levelCountsSegments e
  /\ e_level e = length rel
  /\ parentPath (e_path e) = Js.join "/" rel
  /\ (isDirectory = true ->
      e_type e = "Directory" /\ stripTrailingSlash (e_path e) = Js.join "/" (rel ++ [item])).
Proof.
  intros Hrel Hitem.
  assert (Hall : Forall (fun s => validName pf s = true) (rel ++ [item])).
  { apply Forall_app. split; [exact Hrel|]. constructor; [exact Hitem|constructor]. }
  unfold path_join. rewrite <- app_assoc, getRelativePath_below;
    [|exact Hall|destruct rel; discriminate].
  assert (Hseg : pathSegments (Js.join "/" (rel ++ [item])
                               +:+ (if isDirectory then "/" else "")) = rel ++ [item]).
  { destruct isDirectory.
    - apply (pathSegments_join_slash pf), Hall.
    - rewrite string_app_nil_r. apply (pathSegments_join pf), Hall. }
  unfold levelCountsSegments, parentPath. cbn [rowFor e_path e_level e_type].
  rewrite Hseg, length_app, removelast_last. simpl length.
  repeat split; try lia.
  - subst isDirectory. reflexivity.
  - subst isDirectory. apply stripTrailingSlash_slash.
Qed.

Lemma validNode_cons pf item child rest :
  validNode pf (DirNode ((item, child) :: rest))
  = validName pf item && validNode pf child && validNode pf (DirNode rest).
Proof. reflexivity. Qed.

Lemma validNode_childItems pf n :
  validNode pf n = true -> validNode pf (DirNode (childItems n)) = true.
Proof. destruct n; simpl; tauto. Qed.

Lemma hasParentBefore_cons e0 es i e :
  hasParentBefore es i e -> hasParentBefore (e0 :: es) (S i) e.
Proof.
  intros (j & d & Hj & Hd & H). exists (S j), d. split; [lia|]. split; [exact Hd|exact H].
Qed.

Lemma hasParentBefore_app_l es es' i e :
  hasParentBefore es i e -> hasParentBefore (es ++ es') i e.
Proof.
  intros (j & d & Hj & Hd & H). exists j, d. split; [exact Hj|]. split; [|exact H].
  apply lookup_app_l_Some, Hd.
Qed.

Lemma hasParentBefore_app_r es es' i e :
  hasParentBefore es' i e -> hasParentBefore (es ++ es') (length es + i) e.
Proof.
  intros (j & d & Hj & Hd & H). exists (length es + j), d. split; [lia|]. split; [|exact H].
  rewrite lookup_app_r by lia. replace (length es + j - length es) with j by lia. exact Hd.
Qed.

Lemma shadows_shape pf exts excl base dirPath level items f :
  shadows pf exts excl base dirPath level items f ->
  forall rel,
    dirPath = base ++ rel -> level = length rel ->
    Forall (fun s => validName pf s = true) rel ->
    validNode pf (DirNode items) = true ->
    forall i e,
      preorderAll f !! i = Some e ->
      levelCountsSegments e
      /\ ((e_level e = length rel /\ parentPath (e_path e) = Js.join "/" rel)
          \/ hasParentBefore (preorderAll f) i e).
Proof.
  induction 1 as [dirPath level
                 |dirPath level item child rest f _ IH
                 |dirPath level item child rest f relativePath _ _ _ _ IH
                 |dirPath level item child rest fc f relativePath _ _ _ _ IHc _ IH];
    intros rel Hdir Hlev Hrel Hvalid i e Hi.
  - destruct i; discriminate.
  - rewrite validNode_cons in Hvalid. apply andb_true_iff in Hvalid as [_ Hvalid].
    apply (IH rel Hdir Hlev Hrel Hvalid i e Hi).
  - rewrite validNode_cons in Hvalid. apply andb_true_iff in Hvalid as [Hvalid Hrest].
    apply andb_true_iff in Hvalid as [Hitem _].
    subst dirPath level.
    destruct (rowFor_shape pf base rel item false Hrel Hitem) as (Hshape & Hl & Hp & _).
    rewrite preorderAll_cons in Hi |- *. simpl app in *.
    destruct i as [|i].
    + injection Hi as <-. split; [exact Hshape|]. left. split; assumption.
    + destruct (IH rel eq_refl eq_refl Hrel Hrest i e Hi) as [Hs [Hroot|Hpar]].
      * split; [exact Hs|]. left. exact Hroot.
      * split; [exact Hs|]. right. apply hasParentBefore_cons, Hpar.
  - rewrite validNode_cons in Hvalid. apply andb_true_iff in Hvalid as [Hvalid Hrest].
    apply andb_true_iff in Hvalid as [Hitem Hchild].
    subst dirPath level.
    destruct (rowFor_shape pf base rel item true Hrel Hitem) as (Hshape & Hl & Hp & Hd).
    destruct (Hd eq_refl) as [Htype Hstrip].
    rewrite preorderAll_cons in Hi |- *.
    destruct i as [|i].
    + injection Hi as <-. split; [exact Hshape|]. left. split; assumption.
    + simpl in Hi. apply lookup_app_Some in Hi as [Hi|[Hlen Hi]].
      * assert (Hrel' : Forall (fun s => validName pf s = true) (rel ++ [item])).
        { apply Forall_app. split; [exact Hrel|]. constructor; [exact Hitem|constructor]. }
        destruct (IHc (rel ++ [item])) with (i := i) (e := e) as [Hs [[Hle Hpe]|Hpar]].
        -- unfold path_join. rewrite app_assoc. reflexivity.
        -- rewrite length_app. reflexivity.
        -- exact Hrel'.
        -- apply validNode_childItems, Hchild.
        -- exact Hi.
        -- split; [exact Hs|]. right.
           exists 0, (rowFor (length rel) true item relativePath).
           split; [lia|]. split; [reflexivity|]. split; [exact Htype|].
           split; [|rewrite Hpe; exact Hstrip].
           cbn [rowFor e_level]. rewrite Hle, length_app. simpl. lia.
        -- split; [exact Hs|]. right.
           apply hasParentBefore_cons, hasParentBefore_app_l, Hpar.
      * destruct (IH rel eq_refl eq_refl Hrel Hrest _ e Hi) as [Hs [Hroot|Hpar]].
        -- split; [exact Hs|]. left. exact Hroot.
        -- split; [exact Hs|]. right.
           replace (S i) with (S (length (preorderAll fc) + (i - length (preorderAll fc))))
             by lia.
           apply hasParentBefore_cons, hasParentBefore_app_r, Hpar.
Qed.

(** C10. On a tree of valid names the entries of a run form a tree: the
    level of an entry is the number of segments of its path less one, and an
    entry of level [k >= 1] comes after a directory entry of level [k - 1]
    whose path, without the final slash, is the entry's parent path. *)
Theorem entries_form_a_tree (pf : platform) (exts : option (gset string))
    (root : node) (basePath cwd : fpath) (cwdWritable : bool)
    (Hvalid : validNode pf root = true) (i : nat) (e : Entry) :
  entries (run pf exts root basePath cwd cwdWritable) !! i = Some e ->
  levelCountsSegments e
  /\ (1 <= e_level e ->
      hasParentBefore (entries (run pf exts root basePath cwd cwdWritable)) i e).
Proof.
  destruct (run_entries pf exts root basePath cwd cwdWritable) as (S & f & _ & Hf & _ & ->).
  intros Hi.
  destruct (shadows_shape pf exts S basePath basePath 0 (childItems root) f Hf [])
    with (i := i) (e := e) as [Hs [[Hl _]|Hpar]].
  - rewrite app_nil_r. reflexivity.
  - reflexivity.
  - constructor.
  - apply validNode_childItems, Hvalid.
  - exact Hi.
  - split; [exact Hs|]. simpl in Hl. lia.
  - split; [exact Hs|]. intros _. exact Hpar.
Qed.

(** *** Pruning looks at the subtree and the filter only *)

Lemma errorFree_cons item child rest :
  errorFree (DirNode ((item, child) :: rest))
  = errorFree child && errorFree (DirNode rest).
Proof. reflexivity. Qed.

Lemma containsIncluded_cons pf exts item child rest :
  containsIncluded pf exts (DirNode ((item, child) :: rest))
  = match child with
    | FileNode _ => shouldIncludeFile pf exts item
    | _ => containsIncluded pf exts child
    end || containsIncluded pf exts (DirNode rest).
Proof. reflexivity. Qed.

Lemma checkItems_cons pf exts currentPath item child rest h :
  checkItems pf exts currentPath ((item, child) :: rest) h
  = match statSync_isDirectory child (path_join currentPath item) with
    | Thrown e => (Thrown e, h)
    | Returned true =>
        match checkDir pf exts child (path_join currentPath item) h with
        | (Thrown e, h') => (Thrown e, h')
        | (Returned true, _) => (Returned true, true)
        | (Returned false, h') => checkItems pf exts currentPath rest h'
        end
    | Returned false =>
        if shouldIncludeFile pf exts item then (Returned true, true)
        else checkItems pf exts currentPath rest h
    end.
Proof. reflexivity. Qed.

Lemma checkItems_errorFree pf exts n :
  errorFree n = true ->
  forall currentPath,
    checkItems pf exts currentPath (childItems n) false
    = (Returned (containsIncluded pf exts (DirNode (childItems n))),
       containsIncluded pf exts (DirNode (childItems n))).
Proof.
  induction n as [content|items IH| |] using node_ind_nested; intros Hfree currentPath;
    try reflexivity.
  simpl childItems.
  induction IH as [|[item child] rest Hchild _ IHrest]; [reflexivity|].
  rewrite errorFree_cons in Hfree. apply andb_true_iff in Hfree as [Hc Hrest].
  rewrite checkItems_cons, containsIncluded_cons.
  specialize (IHrest Hrest). cbn [snd] in Hchild.
  destruct child as [content|sub| |]; try discriminate; simpl statSync_isDirectory; cbv iota.
  - destruct (shouldIncludeFile pf exts item); [reflexivity|exact IHrest].
  - rewrite checkDir_unfold. simpl readdirSync. cbv iota.
    pose proof (Hchild Hc (path_join currentPath item)) as Hsub.
    change (childItems (DirNode sub)) with sub in Hsub. rewrite Hsub.
    destruct (containsIncluded pf exts (DirNode sub)); [reflexivity|exact IHrest].
Qed.

Lemma hasIncludedFiles_errorFree pf exts items dirPath :
  errorFree (DirNode items) = true ->
  hasIncludedFiles pf exts (DirNode items) dirPath
  = Returned (match exts with
              | None => true
              | Some _ => containsIncluded pf exts (DirNode items)
              end).
Proof.
  intros Hfree. unfold hasIncludedFiles. destruct exts as [e|]; [|reflexivity].
  rewrite checkDir_unfold. simpl readdirSync. cbv iota.
  pose proof (checkItems_errorFree pf (Some e) (DirNode items) Hfree dirPath) as H.
  change (childItems (DirNode items)) with items in H. rewrite H. reflexivity.
Qed.

Lemma containsIncluded_app pf exts a b :
  containsIncluded pf exts (DirNode (a ++ b))
  = containsIncluded pf exts (DirNode a) || containsIncluded pf exts (DirNode b).
Proof.
  induction a as [|[item child] a IH]; [reflexivity|].
  change (((item, child) :: a) ++ b) with ((item, child) :: (a ++ b)).
  rewrite !containsIncluded_cons, IH, orb_assoc. reflexivity.
Qed.

Lemma normalizePath_trailing_slash pf x : normalizePath pf (x +:+ "/") = normalizePath pf x.
Proof.
  rewrite !normalizePath_segmentsOf, segmentsOf_app_separator by reflexivity.
  change (segmentsOf "") with (@nil string). rewrite app_nil_r. reflexivity.
Qed.

Lemma shouldExclude_trailing_slash pf x (excl : gset string) :
  shouldExclude pf (x +:+ "/") excl = shouldExclude pf x excl.
Proof. unfold shouldExclude. rewrite normalizePath_trailing_slash. reflexivity. Qed.

Lemma shadows_not_excluded pf exts excl basePath dirPath level items f :
  shadows pf exts excl basePath dirPath level items f ->
  forall e, In e (preorderAll f) -> shouldExclude pf (e_path e) excl = false.
Proof.
  induction 1 as [dirPath level
                 |dirPath level item child rest f _ IH
                 |dirPath level item child rest f relativePath Hex _ _ _ IH
                 |dirPath level item child rest fc f relativePath Hex _ _ _ IHc _ IH];
    intros e He.
  - destruct He.
  - apply IH, He.
  - rewrite preorderAll_cons in He. destruct He as [<-|He]; [|apply IH, He].
    cbn [rowFor e_path]. rewrite string_app_nil_r. exact Hex.
  - rewrite preorderAll_cons in He. destruct He as [<-|He].
    + cbn [rowFor e_path]. rewrite shouldExclude_trailing_slash. exact Hex.
    + apply in_app_or in He as [He|He]; [apply IHc, He|apply IH, He].
Qed.

Section Emission.

Variable pf : platform.
Variable exts : option (gset string).
Variable excludeList : gset string.
Variable basePath : fpath.

(** A child that can be examined does not stop the loop, and its entries
    come after those already there. *)
Lemma processItem_errorFree dirPath level item child w :
  errorFree child = true ->
  exists es logs,
    processItem pf exts dirPath basePath excludeList level item child w
    = (Returned tt, extend w es logs).
Proof.
  intros Hfree.
  destruct (processItem_shadows pf exts excludeList basePath item child
              (processDirectory_shadows pf exts excludeList basePath child)
              dirPath level w) as (ts & logs & o & Hrun & _).
  exists (preorderAll ts), logs. rewrite Hrun. f_equal.
  destruct o as [[]|e]; [reflexivity|]. exfalso.
  unfold processItem in Hrun.
  destruct (shouldExclude pf _ excludeList); [discriminate|].
  unfold bind, lift, ret in Hrun.
  destruct child as [content|sub| |]; try discriminate;
    cbn [statSync_isDirectory negb andb] in Hrun; cbv beta iota in Hrun.
  - destruct (shouldIncludeFile pf exts item); cbn [negb] in Hrun; cbv beta iota in Hrun;
      [rewrite addRow_extend in Hrun|]; discriminate.
  - rewrite hasIncludedFiles_errorFree in Hrun by exact Hfree.
    destruct (match exts with Some _ => _ | None => true end);
      cbn [negb] in Hrun; cbv beta iota in Hrun; [|discriminate].
    rewrite addRow_extend in Hrun.
    destruct (processDirectory_shadows pf exts excludeList basePath (DirNode sub)
                (path_join dirPath item) (level + 1)
                (extend w [rowFor level true item
                             (getRelativePath pf (path_join dirPath item) basePath)] []))
      as (f & l & Hw & _).
    rewrite Hw in Hrun. discriminate.
Qed.

(** A directory that is not excluded and passes the pruning test gets its
    entry. *)
Lemma processItem_directory dirPath level item child w :
  shouldExclude pf (getRelativePath pf (path_join dirPath item) basePath) excludeList = false ->
  statSync_isDirectory child (path_join dirPath item) = Returned true ->
  hasIncludedFiles pf exts child (path_join dirPath item) = Returned true ->
  exists es logs,
    processItem pf exts dirPath basePath excludeList level item child w
    = (Returned tt,
       extend w (rowFor level true item
                   (getRelativePath pf (path_join dirPath item) basePath) :: es) logs).
Proof.
  intros Hex Hstat Hhas. unfold processItem. rewrite Hex. unfold bind, lift, ret.
  rewrite Hstat. cbn [negb andb]. cbv beta iota. rewrite Hhas. cbn [negb]. cbv beta iota.
  rewrite addRow_extend.
  destruct (processDirectory_shadows pf exts excludeList basePath child
              (path_join dirPath item) (level + 1)
              (extend w [rowFor level true item
                           (getRelativePath pf (path_join dirPath item) basePath)] []))
    as (f & l & Hw & _).
  rewrite Hw, extend_extend. exists (preorderAll f), l. reflexivity.
Qed.

Lemma processItems_emits dirPath level pre item child post w :
  errorFree (DirNode pre) = true ->
  shouldExclude pf (getRelativePath pf (path_join dirPath item) basePath) excludeList = false ->
  statSync_isDirectory child (path_join dirPath item) = Returned true ->
  hasIncludedFiles pf exts child (path_join dirPath item) = Returned true ->
  exists o w',
    processItems pf exts dirPath basePath excludeList level (pre ++ (item, child) :: post) w
    = (o, w')
    /\ In (rowFor level true item (getRelativePath pf (path_join dirPath item) basePath))
          (entries w').
Proof.
  intros Hfree Hex Hstat Hhas. revert w.
  induction pre as [|[x c] pre IH]; intros w.
  - simpl app. rewrite processItems_cons. unfold bind.
    destruct (processItem_directory dirPath level item child w Hex Hstat Hhas)
      as (es & logs & ->).
    destruct (processItems_shadows pf exts excludeList basePath post) with
      (dirPath := dirPath) (level := level)
      (w := extend w (rowFor level true item
                        (getRelativePath pf (path_join dirPath item) basePath) :: es) logs)
      as (f & logs' & o & Hrun & _).
    { apply Forall_forall. intros ic _. apply processDirectory_shadows. }
    rewrite Hrun. eexists _, _. split; [reflexivity|].
    rewrite !entries_extend. apply in_or_app. left. apply in_or_app. right. left. reflexivity.
  - rewrite errorFree_cons in Hfree. apply andb_true_iff in Hfree as [Hc Hpre].
    change (((x, c) :: pre) ++ (item, child) :: post)
      with ((x, c) :: (pre ++ (item, child) :: post)).
    rewrite processItems_cons. unfold bind.
    destruct (processItem_errorFree dirPath level x c w Hc) as (es & logs & ->).
    apply (IH Hpre).
Qed.

End Emission.

(** C7. Pruning asks only whether the subtree holds a file that passes the
    extension filter: on a tree without errors [hasIncludedFiles] is
    [containsIncluded], which has no exclusion set to look at.  So, wherever
    the walker processes a directory, a child directory that is not excluded
    itself and holds a passing file gets its entry whatever the exclusion
    set says about its files, while no entry is written for an excluded
    path.  With the filter [ts] and the exclusion [d/a.ts], the directory [d]
    of the single file [a.ts] is the only entry. *)
Theorem pruning_ignores_exclusions (pf : platform) (exts excludeList : gset string)
    (basePath dirPath : fpath) (level : nat) (pre post sub : list (string * node)) (d : string)
    (Hfree : errorFree (DirNode (pre ++ (d, DirNode sub) :: post)) = true)
    (Hpasses : containsIncluded pf (Some exts) (DirNode sub) = true)
    (Hkept : shouldExclude pf (getRelativePath pf (path_join dirPath d) basePath)
                           excludeList = false) :
  let parent := DirNode (pre ++ (d, DirNode sub) :: post) in
  let es := entries (snd (processDirectory pf (Some exts) parent dirPath basePath
                                           excludeList level initialWorld)) in
  (forall anyPath,
      hasIncludedFiles pf (Some exts) (DirNode sub) anyPath
      = Returned (containsIncluded pf (Some exts) (DirNode sub)))
  /\ In (rowFor level true d (getRelativePath pf (path_join dirPath d) basePath)) es
  /\ (forall e, In e es -> shouldExclude pf (e_path e) excludeList = false)
  /\ entries (run Posix (Some {[ "ts" ]})
                  (DirNode [(exclusionFileName, FileNode (Some "d/a.ts"));
                            ("d", DirNode [("a.ts", FileNode None)])])
                  ["project"] ["out"] true)
     = [mkEntry 0 "Directory" "d" "d/" "pending"].
Proof.
  intros parent es.
  assert (Hsub : errorFree (DirNode sub) = true /\ errorFree (DirNode pre) = true).
  { clear -Hfree. induction pre as [|[x c] pre' IH].
    - simpl app in Hfree. rewrite errorFree_cons in Hfree.
      apply andb_true_iff in Hfree as [Hs _]. split; [exact Hs|reflexivity].
    - change (((x, c) :: pre') ++ (d, DirNode sub) :: post)
        with ((x, c) :: (pre' ++ (d, DirNode sub) :: post)) in Hfree.
      rewrite errorFree_cons in Hfree. apply andb_true_iff in Hfree as [Hc Hrest].
      destruct (IH Hrest) as [Hs Hp]. split; [exact Hs|].
      rewrite errorFree_cons, Hc, Hp. reflexivity. }
  destruct Hsub as [Hsub Hpre].
  assert (Hhas : forall anyPath,
             hasIncludedFiles pf (Some exts) (DirNode sub) anyPath
             = Returned (containsIncluded pf (Some exts) (DirNode sub))).
  { intros anyPath. apply (hasIncludedFiles_errorFree pf (Some exts) sub anyPath Hsub). }
  split; [exact Hhas|]. split; [|split].
  - subst es parent. rewrite processDirectory_unfold. unfold tryCatch, bind, lift.
    cbn [readdirSync]. rewrite hasIncludedFiles_errorFree by exact Hfree.
    rewrite containsIncluded_app, containsIncluded_cons, Hpasses, orb_true_r.
    cbn [negb orb]. cbv beta iota.
    destruct (processItems_emits pf (Some exts) excludeList basePath dirPath level
                pre d (DirNode sub) post initialWorld Hpre Hkept eq_refl)
      as (o & w' & Hrun & Hin).
    { rewrite Hhas, Hpasses. reflexivity. }
    rewrite Hrun. destruct o as [[]|e]; [exact Hin|].
    rewrite consoleLog_extend. simpl snd. rewrite entries_extend, app_nil_r. exact Hin.
  - intros e He. subst es.
    destruct (processDirectory_shadows pf (Some exts) excludeList basePath parent
                dirPath level initialWorld) as (f & logs & Hrun & Hf).
    rewrite Hrun in He. simpl snd in He. rewrite entries_extend in He. simpl app in He.
    apply (shadows_not_excluded _ _ _ _ _ _ _ _ Hf e He).
  - vm_compute. reflexivity.
Qed.

Lemma pruning_ignores_exclusions_witness :
  In (mkEntry 0 "Directory" "d" "d/" "pending")
     (entries (snd (processDirectory Posix (Some {[ "ts" ]})
                      (DirNode [("d", DirNode [("a.ts", FileNode None)])])
                      ["project"] ["project"] {[ "d/a.ts" ]} 0 initialWorld))).
Proof.
  apply (pruning_ignores_exclusions Posix {[ "ts" ]} {[ "d/a.ts" ]} ["project"] ["project"] 0
           [] [] [("a.ts", FileNode None)] "d" eq_refl); vm_compute; reflexivity.
Defined.

(** *** Errors *)

Lemma processItems_app pf exts dirPath basePath excludeList level a b w :
  processItems pf exts dirPath basePath excludeList level (a ++ b) w
  = match processItems pf exts dirPath basePath excludeList level a w with
    | (Returned _, w1) => processItems pf exts dirPath basePath excludeList level b w1
    | (Thrown e, w1) => (Thrown e, w1)
    end.
Proof.
  revert w. induction a as [|[item child] a IH]; intros w; [reflexivity|].
  change (((item, child) :: a) ++ b) with ((item, child) :: (a ++ b)).
  rewrite !processItems_cons. unfold bind.
  destruct (processItem pf exts dirPath basePath excludeList level item child w) as [[[]|e] w1];
    [apply IH|reflexivity].
Qed.

(** C3 fails for an error on a child: after [statSync] fails on [gone], the
    sibling [last] is not processed, and the console line carries the path
    of the directory, not that of the child. *)
Lemma errors_are_caught_per_directory_counterexample :
  let w := run Posix None
               (DirNode [("first", FileNode None); ("gone", NoStat); ("last", FileNode None)])
               ["project"] ["out"] true in
  entries w = [mkEntry 0 "File" "first" "first" "pending"]
  /\ console w = [LogExcludedItems {[ exclusionFileName ]};
                  ErrProcessingDirectory ["project"] (Estat ["project"; "gone"]);
                  LogGenerated ["out"; "directory-tree.xlsx"]].
Proof. vm_compute. split; reflexivity. Qed.

(** C2, as the code has it.  When the root cannot be listed, the error is
    caught by [processDirectory] and logged with the root path; no entry is
    written, and the run goes on: [generateExcel] returns normally and the
    workbook, with no data rows, is written. *)
Theorem unlistable_root_is_logged_not_fatal (pf : platform) (exts : option (gset string))
    (root : node) (basePath cwd : fpath) (err : fs_error)
    (Hroot : readdirSync root basePath = Thrown err) :
  let outputPath := path_join cwd "directory-tree.xlsx" in
  let w := run pf exts root basePath cwd true in
  fst (generateExcel pf exts root basePath cwd true initialWorld) = Returned tt
  /\ entries w = []
  /\ console w = [LogExcludedItems {[ exclusionFileName ]}]
                 ++ match exts with Some e => [LogIncludingOnly e] | None => [] end
                 ++ [ErrProcessingDirectory basePath err; LogGenerated outputPath]
  /\ disk w = [(outputPath, mkFile [] (Some 1))].
Proof.
  destruct root as [content|items| |]; try discriminate;
    injection Hroot as <-; destruct exts; repeat split; reflexivity.
Qed.

Lemma unlistable_root_is_logged_not_fatal_witness :
  disk (run Posix None NoStat ["missing"] ["out"] true)
  = [(["out"; "directory-tree.xlsx"], mkFile [] (Some 1))].
Proof.
  apply (unlistable_root_is_logged_not_fatal Posix None NoStat ["missing"] ["out"]
           (Escandir ["missing"]) eq_refl).
Defined.

(** C2 fails: with a root that does not exist the run is not aborted;
    [generateExcel] returns without an error for its caller and the report
    is written. *)
Lemma unlistable_root_is_logged_not_fatal_counterexample :
  fst (generateExcel Posix None NoStat ["missing"] ["out"] true initialWorld) = Returned tt
  /\ disk (run Posix None NoStat ["missing"] ["out"] true)
     = [(["out"; "directory-tree.xlsx"], mkFile [] (Some 1))]
  /\ console (run Posix None NoStat ["missing"] ["out"] true)
     = [LogExcludedItems {[ exclusionFileName ]};
        ErrProcessingDirectory ["missing"] (Escandir ["missing"]);
        LogGenerated ["out"; "directory-tree.xlsx"]].
Proof. vm_compute. repeat split; reflexivity. Qed.

(** *** Witnesses on a small tree *)

Lemma entries_form_a_tree_witness :
  hasParentBefore
    (entries (run Posix None (DirNode [("src", DirNode [("main.js", FileNode None)])])
                  ["project"] ["out"] true))
    1 (mkEntry 1 "File" "  main.js" "src/main.js" "pending").
Proof.
  apply (entries_form_a_tree Posix None (DirNode [("src", DirNode [("main.js", FileNode None)])])
           ["project"] ["out"] true eq_refl 1
           (mkEntry 1 "File" "  main.js" "src/main.js" "pending")).
  - vm_compute. reflexivity.
  - simpl. lia.
Defined.


(** ** Further properties of the script *)

(** *** The walk on a tree that can be read *)

Lemma expectedEntries_unfold pf exts excl basePath items dirPath level :
  expectedEntries pf exts excl basePath (DirNode items) dirPath level
  = if passesPruning pf exts (DirNode items)
    then expectedForItems pf exts excl basePath dirPath level items
    else [].
Proof. reflexivity. Qed.

Lemma hasIncludedFiles_passesPruning pf exts items dirPath :
  errorFree (DirNode items) = true ->
  hasIncludedFiles pf exts (DirNode items) dirPath
  = Returned (passesPruning pf exts (DirNode items)).
Proof. apply hasIncludedFiles_errorFree. Qed.

Lemma processDirectory_readable pf exts excludeList basePath items :
  errorFree (DirNode items) = true ->
  forall dirPath level w,
    processDirectory pf exts (DirNode items) dirPath basePath excludeList level w
    = (Returned tt,
       extend w (expectedEntries pf exts excludeList basePath (DirNode items) dirPath level) []).
Proof.
  change (forall (Hfree : errorFree (DirNode items) = true) dirPath level w,
             match DirNode items with
             | DirNode _ =>
                 processDirectory pf exts (DirNode items) dirPath basePath excludeList level w
                 = (Returned tt,
                    extend w (expectedEntries pf exts excludeList basePath (DirNode items)
                                              dirPath level) [])
             | _ => True
             end).
  generalize (DirNode items) as n. clear items.
  induction n as [content|items IH| |] using node_ind_nested; try (intros; exact I).
  intros Hfree dirPath level w.
  rewrite processDirectory_unfold, expectedEntries_unfold. unfold tryCatch, bind, lift.
  cbn [readdirSync]. rewrite hasIncludedFiles_passesPruning by exact Hfree.
  destruct (passesPruning pf exts (DirNode items)); cbn [negb]; cbv beta iota;
    [|unfold ret; rewrite extend_nil; reflexivity].
  assert (Hloop : forall w',
             processItems pf exts dirPath basePath excludeList level items w'
             = (Returned tt,
                extend w' (expectedForItems pf exts excludeList basePath dirPath level items) [])).
  { clear w. induction IH as [|[item child] rest Hchild _ IHrest]; intros w'.
    - simpl. unfold ret. rewrite extend_nil. reflexivity.
    - rewrite errorFree_cons in Hfree. apply andb_true_iff in Hfree as [Hc Hrest].
      rewrite processItems_cons. unfold bind.
      assert (Hitem : processItem pf exts dirPath basePath excludeList level item child w'
                      = (Returned tt,
                         extend w' (expectedForItem pf exts excludeList basePath dirPath level
                                                    item child) [])).
      { unfold processItem, expectedForItem.
        destruct (shouldExclude pf _ excludeList);
          [unfold ret; rewrite extend_nil; reflexivity|].
        unfold bind, lift, ret. cbn [snd] in Hchild.
        destruct child as [content|sub| |]; try discriminate;
          cbn [statSync_isDirectory negb andb]; cbv beta iota.
        - destruct (shouldIncludeFile pf exts item); cbn [negb]; cbv beta iota;
            [apply addRow_extend|rewrite extend_nil; reflexivity].
        - rewrite hasIncludedFiles_passesPruning by exact Hc.
          destruct (passesPruning pf exts (DirNode sub)); cbn [negb]; cbv beta iota;
            [|rewrite extend_nil; reflexivity].
          rewrite addRow_extend, (Hchild Hc), extend_extend. reflexivity. }
      rewrite Hitem, (IHrest Hrest), extend_extend. reflexivity. }
  rewrite Hloop. reflexivity.
Qed.

(** X1. On a tree in which every directory can be listed and every child
    examined, [processDirectory] returns after adding exactly the entries
    [expectedEntries] computes from the tree, and prints nothing. *)
Theorem processDirectory_on_readable_tree (pf : platform) (exts : option (gset string))
    (excludeList : gset string) (basePath : fpath) (items : list (string * node))
    (Hfree : errorFree (DirNode items) = true) (dirPath : fpath) (level : nat) (w : world) :
  processDirectory pf exts (DirNode items) dirPath basePath excludeList level w
  = (Returned tt,
     extend w (expectedEntries pf exts excludeList basePath (DirNode items) dirPath level) []).
Proof. apply processDirectory_readable, Hfree. Qed.

Lemma processDirectory_on_readable_tree_witness :
  entries (snd (processDirectory Posix (Some {[ "ts" ]})
                  (DirNode [("a.ts", FileNode None); ("b.js", FileNode None);
                            ("sub", DirNode [("c.md", FileNode None)])])
                  ["project"] ["project"] {[ exclusionFileName ]} 0 initialWorld))
  = [mkEntry 0 "File" "a.ts" "a.ts" "pending"].
Proof.
  rewrite (processDirectory_on_readable_tree Posix (Some {[ "ts" ]}) {[ exclusionFileName ]}
             ["project"]
             [("a.ts", FileNode None); ("b.js", FileNode None);
              ("sub", DirNode [("c.md", FileNode None)])]
             eq_refl ["project"] 0 initialWorld).
  vm_compute. reflexivity.
Defined.

(** *** The exclusion list *)

Lemma segmentsOf_join pf segs :
  Forall (fun s => isSegment s = true) segs ->
  segmentsOf (Js.join (path_sep pf) segs) = segs.
Proof.
  intros Hall. unfold segmentsOf. destruct segs as [|s segs]; [reflexivity|].
  unfold path_sep. rewrite (split_join isSlash).
  - apply filter_truthy_id. eapply Forall_impl; [exact Hall|]. intros a. apply isSegment_truthy.
  - apply isSlash_sepChar.
  - discriminate.
  - eapply Forall_impl; [exact Hall|]. intros a. apply isSegment_free.
Qed.

Lemma normalizePath_idempotent pf x : normalizePath pf (normalizePath pf x) = normalizePath pf x.
Proof. unfold normalizePath at 2 3. apply normalizePath_join, normalizePath_segments. Qed.

Lemma addLines_spec pf lines (acc : gset string) e :
  e ∈ fold_left (addLine pf) lines acc
  <-> e ∈ acc
      \/ exists line, In line lines /\ Js.truthy (Js.trim line) = true
                      /\ e = normalizePath pf (Js.trim line).
Proof.
  revert acc. induction lines as [|l lines IH]; intros acc; simpl.
  - split; [tauto|]. intros [H|(line & [] & _)]. exact H.
  - rewrite IH. unfold addLine. split.
    + intros [Hacc|(line & Hin & Ht & He)].
      * destruct (Js.truthy (Js.trim l)) eqn:Hl; [|left; exact Hacc].
        apply elem_of_union in Hacc as [Hacc|Hacc]; [left; exact Hacc|].
        apply elem_of_singleton in Hacc. right. exists l. auto.
      * right. exists line. auto.
    + intros [Hacc|(line & [<-|Hin] & Ht & He)].
      * left. destruct (Js.truthy (Js.trim l)); [apply elem_of_union; left|]; exact Hacc.
      * left. rewrite Ht. apply elem_of_union. right. apply elem_of_singleton. exact He.
      * right. exists line. auto.
Qed.

Lemma getExclusionList_normal pf root basePath w :
  exists excl w',
    getExclusionList pf root basePath w = (Returned excl, w')
    /\ worksheet w' = worksheet w /\ rowIndex w' = rowIndex w
    /\ exclusionFileName ∈ excl
    /\ forall e, e ∈ excl -> normalizePath pf e = e.
Proof.
  assert (Hdef : forall e : string,
             e ∈ ({[ exclusionFileName ]} : gset string) -> normalizePath pf e = e).
  { intros e He. apply elem_of_singleton in He. subst e. destruct pf; reflexivity. }
  assert (Hin : exclusionFileName ∈ ({[ exclusionFileName ]} : gset string))
    by (apply elem_of_singleton; reflexivity).
  unfold getExclusionList, tryCatch.
  destruct (existsSync root exclusionFileName).
  - unfold bind, lift. destruct (readFileSync root basePath exclusionFileName) as [content|err].
    + eexists _, w. do 3 (split; [reflexivity|]). split.
      * apply (addLines_spec pf). left. exact Hin.
      * intros e He. apply (addLines_spec pf) in He as [He|(line & _ & _ & ->)];
          [apply Hdef, He|apply normalizePath_idempotent].
    + eexists _, _. do 3 (split; [reflexivity|]). split; [exact Hin|exact Hdef].
  - eexists _, w. do 3 (split; [reflexivity|]). split; [exact Hin|exact Hdef].
Qed.

(** X2. [getExclusionList] never throws and leaves the worksheet alone; the
    set it returns always holds the name of the exclusion file itself, and
    each of its entries is a normal form of [normalizePath]. *)
Theorem getExclusionList_invariants (pf : platform) (root : node) (basePath : fpath) (w : world) :
  exists excl w',
    getExclusionList pf root basePath w = (Returned excl, w')
    /\ worksheet w' = worksheet w /\ rowIndex w' = rowIndex w
    /\ exclusionFileName ∈ excl
    /\ forall e, e ∈ excl -> normalizePath pf e = e.
Proof. apply getExclusionList_normal. Qed.

(** X3. When the exclusion file is a readable file of the root, the set
    holds the file's own name and, for every line that is not blank, the
    normal form of the trimmed line, and nothing else; nothing is printed. *)
Theorem getExclusionList_entries (pf : platform) (items : list (string * node))
    (basePath : fpath) (content : string) (w : world)
    (Hfile : lookupItem exclusionFileName items = Some (FileNode (Some content))) :
  exists excl,
    getExclusionList pf (DirNode items) basePath w = (Returned excl, w)
    /\ forall e,
         e ∈ excl
         <-> e = exclusionFileName
             \/ exists line,
                  In line (Js.split (Ascii.eqb "010"%char) content)
                  /\ Js.truthy (Js.trim line) = true
                  /\ e = normalizePath pf (Js.trim line).
Proof.
  unfold getExclusionList, tryCatch, existsSync, readFileSync. rewrite Hfile.
  unfold bind, lift, ret. eexists. split; [reflexivity|].
  intros e. rewrite (addLines_spec pf). rewrite elem_of_singleton. reflexivity.
Qed.

Lemma getExclusionList_entries_witness :
  exists excl,
    getExclusionList Win32
      (DirNode [("src", DirNode []);
                (exclusionFileName, FileNode (Some "  node_modules/
dist\cache"))])
      ["project"] initialWorld = (Returned excl, initialWorld)
    /\ "dist\cache" ∈ excl.
Proof.
  destruct (getExclusionList_entries Win32
              [("src", DirNode []);
               (exclusionFileName, FileNode (Some "  node_modules/
dist\cache"))]
              ["project"] "  node_modules/
dist\cache" initialWorld eq_refl) as (excl & Hrun & Hspec).
  exists excl. split; [exact Hrun|]. apply Hspec. right.
  exists "dist\cache". split; [right; left; reflexivity|]. split; reflexivity.
Defined.

(** X4. Nothing whose path the exclusion list excludes is ever written: in
    every run each entry passes [shouldExclude] with the list that was read,
    so the exclusion file of the root has no entry. *)
Theorem excluded_paths_have_no_entry (pf : platform) (exts : option (gset string))
    (root : node) (basePath cwd : fpath) (cwdWritable : bool) :
  exists excl,
    fst (getExclusionList pf root basePath initialWorld) = Returned excl
    /\ forall e,
         In e (entries (run pf exts root basePath cwd cwdWritable)) ->
         shouldExclude pf (e_path e) excl = false
         /\ e_path e <> exclusionFileName.
Proof.
  destruct (run_entries pf exts root basePath cwd cwdWritable) as (excl & f & Hget & Hf & _ & ->).
  exists excl. split; [exact Hget|]. intros e He.
  pose proof (shadows_not_excluded _ _ _ _ _ _ _ _ Hf e He) as Hex.
  split; [exact Hex|]. intros Heq.
  destruct (getExclusionList_normal pf root basePath initialWorld)
    as (excl' & w' & Hrun & _ & _ & Hin & _).
  rewrite Hrun in Hget. simpl in Hget. injection Hget as ->.
  assert (Htrue : shouldExclude pf (e_path e) excl = true).
  { apply shouldExclude_true_iff. left. rewrite Heq.
    replace (normalizePath pf exclusionFileName) with exclusionFileName
      by (destruct pf; reflexivity).
    exact Hin. }
  congruence.
Qed.

(** *** The form of an entry *)

Lemma join_valid_no_trailing_slash pf segs :
  Forall (fun s => validName pf s = true) segs ->
  Js.endsWithChar (Js.join "/" segs) "/"%char = false.
Proof.
  intros Hall. induction Hall as [|s segs Hs Hall IH]; [reflexivity|].
  destruct segs as [|s' segs].
  - simpl. apply (endsWithChar_free (fun c => Ascii.eqb c "/"%char));
      [apply (validName_no_slash pf), Hs|reflexivity].
  - rewrite join_cons2, endsWithChar_app_r.
    + rewrite endsWithChar_app_r; [exact IH|].
      inversion Hall; subst. apply join_truthy, (validName_truthy pf). assumption.
    + discriminate.
Qed.

(** Every entry beneath the directory [rel] is the row of an item [item]
    found in a directory [rel ++ more], and no prefix of its path that is
    longer than [rel] is excluded. *)
Lemma shadows_entry_form pf exts excl base dirPath level items f :
  shadows pf exts excl base dirPath level items f ->
  forall rel,
    dirPath = base ++ rel -> level = length rel ->
    Forall (fun s => validName pf s = true) rel ->
    validNode pf (DirNode items) = true ->
    forall e, In e (preorderAll f) ->
    exists more item isDirectory,
      Forall (fun s => validName pf s = true) (rel ++ more ++ [item])
      /\ e = rowFor (length (rel ++ more)) isDirectory item
                    (Js.join "/" (rel ++ more ++ [item]))
      /\ forall k, length rel < k <= length (rel ++ more ++ [item]) ->
                   shouldExclude pf (Js.join "/" (take k (rel ++ more ++ [item]))) excl = false.
Proof.
  assert (Hroot : forall rel item isDirectory,
             Forall (fun s => validName pf s = true) rel -> validName pf item = true ->
             shouldExclude pf (getRelativePath pf (path_join (base ++ rel) item) base) excl
             = false ->
             Forall (fun s => validName pf s = true) (rel ++ [] ++ [item])
             /\ rowFor (length rel) isDirectory item
                       (getRelativePath pf (path_join (base ++ rel) item) base)
                = rowFor (length (rel ++ [])) isDirectory item
                         (Js.join "/" (rel ++ [] ++ [item]))
             /\ forall k, length rel < k <= length (rel ++ [] ++ [item]) ->
                          shouldExclude pf (Js.join "/" (take k (rel ++ [] ++ [item]))) excl
                          = false).
  { intros rel item isDirectory Hrel Hitem Hex. simpl app.
    assert (Hall : Forall (fun s => validName pf s = true) (rel ++ [item])).
    { apply Forall_app. split; [exact Hrel|]. constructor; [exact Hitem|constructor]. }
    unfold path_join in *. rewrite <- app_assoc in *.
    rewrite getRelativePath_below in * by (try exact Hall; destruct rel; discriminate).
    rewrite app_nil_r. split; [exact Hall|]. split; [reflexivity|].
    intros k Hk. rewrite take_ge by (rewrite length_app; simpl; lia). exact Hex. }
  induction 1 as [dirPath level
                 |dirPath level item child rest f _ IH
                 |dirPath level item child rest f relativePath Hex _ _ _ IH
                 |dirPath level item child rest fc f relativePath Hex _ _ _ IHc _ IH];
    intros rel Hdir Hlev Hrel Hvalid e He.
  - destruct He.
  - rewrite validNode_cons in Hvalid. apply andb_true_iff in Hvalid as [_ Hvalid].
    apply (IH rel Hdir Hlev Hrel Hvalid e He).
  - rewrite validNode_cons in Hvalid. apply andb_true_iff in Hvalid as [Hvalid Hrest].
    apply andb_true_iff in Hvalid as [Hitem _]. subst dirPath level.
    rewrite preorderAll_cons in He. destruct He as [<-|He];
      [|apply (IH rel eq_refl eq_refl Hrel Hrest e He)].
    exists [], item, false. apply Hroot; assumption.
  - rewrite validNode_cons in Hvalid. apply andb_true_iff in Hvalid as [Hvalid Hrest].
    apply andb_true_iff in Hvalid as [Hitem Hchild]. subst dirPath level.
    rewrite preorderAll_cons in He. destruct He as [<-|He].
    { exists [], item, true. apply Hroot; assumption. }
    apply in_app_or in He as [He|He]; [|apply (IH rel eq_refl eq_refl Hrel Hrest e He)].
    destruct (Hroot rel item true Hrel Hitem Hex) as (Hall & _ & Hpre).
    simpl app in Hall, Hpre.
    destruct (IHc (rel ++ [item])) with (e := e) as (more & x & isDir & Hall' & He' & Hk').
    + unfold path_join. rewrite app_assoc. reflexivity.
    + rewrite length_app. reflexivity.
    + exact Hall.
    + apply validNode_childItems, Hchild.
    + exact He.
    + exists (item :: more), x, isDir.
      replace (rel ++ (item :: more) ++ [x]) with ((rel ++ [item]) ++ more ++ [x])
        by (rewrite <- app_assoc; reflexivity).
      replace (rel ++ item :: more) with ((rel ++ [item]) ++ more)
        by (rewrite <- app_assoc; reflexivity).
      split; [exact Hall'|]. split; [exact He'|].
      intros k Hk. destruct (decide (k = length rel + 1)) as [->|Hne].
      * rewrite take_app_le by (rewrite length_app; simpl; lia).
        apply Hpre. rewrite length_app. simpl. lia.
      * apply Hk'. rewrite !length_app in Hk |- *. simpl in Hk |- *.
        rewrite length_app. simpl. lia.
Qed.

(** X5. On a tree of valid names no entry lies beneath an excluded path: for
    every entry of a run, none of the paths made of the first segments of its
    path is excluded by the list that was read.  Excluding a directory thus
    removes everything beneath it. *)
Theorem no_entry_beneath_an_excluded_path (pf : platform) (exts : option (gset string))
    (root : node) (basePath cwd : fpath) (cwdWritable : bool)
    (Hvalid : validNode pf root = true) :
  exists excl,
    fst (getExclusionList pf root basePath initialWorld) = Returned excl
    /\ forall e k,
         In e (entries (run pf exts root basePath cwd cwdWritable)) ->
         1 <= k <= length (pathSegments (e_path e)) ->
         shouldExclude pf (Js.join "/" (take k (pathSegments (e_path e)))) excl = false.
Proof.
  destruct (run_entries pf exts root basePath cwd cwdWritable) as (excl & f & Hget & Hf & _ & ->).
  exists excl. split; [exact Hget|]. intros e k He Hk.
  destruct (shadows_entry_form pf exts excl basePath basePath 0 (childItems root) f Hf [])
    with (e := e) as (more & item & isDir & Hall & -> & Hpre).
  - rewrite app_nil_r. reflexivity.
  - reflexivity.
  - constructor.
  - apply validNode_childItems, Hvalid.
  - exact He.
  - simpl app in *. cbn [rowFor e_path] in *.
    assert (Hseg : pathSegments (Js.join "/" (more ++ [item])
                                 +:+ (if isDir then "/" else "")) = more ++ [item]).
    { destruct isDir.
      - apply (pathSegments_join_slash pf), Hall.
      - rewrite string_app_nil_r. apply (pathSegments_join pf), Hall. }
    rewrite Hseg in *. apply Hpre. simpl. lia.
Qed.

Lemma no_entry_beneath_an_excluded_path_witness :
  exists excl,
    fst (getExclusionList Posix
           (DirNode [("src", DirNode [("lib", DirNode [("a.js", FileNode None)])])])
           ["project"] initialWorld) = Returned excl
    /\ shouldExclude Posix "src/lib" excl = false.
Proof.
  destruct (no_entry_beneath_an_excluded_path Posix None
              (DirNode [("src", DirNode [("lib", DirNode [("a.js", FileNode None)])])])
              ["project"] ["out"] true eq_refl) as (excl & Hget & Hpre).
  exists excl. split; [exact Hget|].
  apply (Hpre (mkEntry 2 "File" "    a.js" "src/lib/a.js" "pending") 2).
  - vm_compute. right. right. left. reflexivity.
  - vm_compute. lia.
Defined.

(** X6. On a tree of valid names every entry of a run has the status
    [pending] and is either a directory entry whose path ends in a slash or
    a file entry whose path does not. *)
Theorem entry_kinds (pf : platform) (exts : option (gset string))
    (root : node) (basePath cwd : fpath) (cwdWritable : bool)
    (Hvalid : validNode pf root = true) (e : Entry) :
  In e (entries (run pf exts root basePath cwd cwdWritable)) ->
  e_status e = "pending"
  /\ ((e_type e = "Directory" /\ Js.endsWithChar (e_path e) "/"%char = true)
      \/ (e_type e = "File" /\ Js.endsWithChar (e_path e) "/"%char = false)).
Proof.
  destruct (run_entries pf exts root basePath cwd cwdWritable) as (excl & f & Hget & Hf & _ & ->).
  intros He.
  destruct (shadows_entry_form pf exts excl basePath basePath 0 (childItems root) f Hf [])
    with (e := e) as (more & item & isDir & Hall & -> & _).
  - rewrite app_nil_r. reflexivity.
  - reflexivity.
  - constructor.
  - apply validNode_childItems, Hvalid.
  - exact He.
  - simpl app in *. split; [reflexivity|]. cbn [rowFor e_path e_type]. destruct isDir.
    + left. split; [reflexivity|]. apply endsWithChar_app.
    + right. split; [reflexivity|]. rewrite string_app_nil_r.
      apply (join_valid_no_trailing_slash pf), Hall.
Qed.

Lemma entry_kinds_witness :
  Js.endsWithChar "src/" "/"%char = true.
Proof.
  destruct (entry_kinds Posix None (DirNode [("src", DirNode [("main.js", FileNode None)])])
              ["project"] ["out"] true eq_refl
              (mkEntry 0 "Directory" "src" "src/" "pending")) as [_ [[_ H]|[H _]]].
  - vm_compute. left. reflexivity.
  - exact H.
  - discriminate H.
Defined.

(** *** The workbook of a run *)

Lemma map_fst_numbered k es : map fst (numbered k es) = seq k (length es).
Proof.
  revert k. induction es as [|e es IH]; intros k; [reflexivity|].
  unfold numbered in *. simpl. rewrite IH. reflexivity.
Qed.

Lemma run_world pf exts root basePath cwd cwdWritable :
  exists es logs,
    generateExcel pf exts root basePath cwd cwdWritable initialWorld
    = (Returned tt,
       mkWorld (2 + length es) (numbered 2 es) (Some (1 + length es))
               (logs ++ [if cwdWritable
                         then LogGenerated (path_join cwd "directory-tree.xlsx")
                         else ErrGeneratingExcel (Ewrite (path_join cwd "directory-tree.xlsx"))])
               (if cwdWritable
                then [(path_join cwd "directory-tree.xlsx",
                       mkFile (numbered 2 es) (Some (1 + length es)))]
                else [])).
Proof.
  destruct (getExclusionList_returns pf root basePath initialWorld)
    as (excl & w1 & Hget & (logs & Hw1) & _).
  simpl in Hw1.
  set (w2 := mkWorld 2 [] None
               ((logs ++ [LogExcludedItems excl])
                ++ match exts with Some e => [LogIncludingOnly e] | None => [] end) []).
  destruct (processDirectory_shadows pf exts excl basePath root basePath 0 w2)
    as (f & logs' & Hwalk & _).
  exists (preorderAll f), (console w2 ++ logs').
  unfold generateExcel, tryCatch, bind. rewrite Hget, Hw1.
  unfold consoleLog at 1. cbn [rowIndex worksheet autoFilterTo console disk].
  assert (Hlog : (match exts with
                  | Some e => consoleLog (LogIncludingOnly e)
                  | None => ret tt
                  end) (mkWorld 2 [] None (logs ++ [LogExcludedItems excl]) [])
                 = (Returned tt, w2)).
  { unfold w2. destruct exts; [reflexivity|].
    unfold ret. rewrite app_nil_r. reflexivity. }
  rewrite Hlog, Hwalk. unfold setAutoFilter, writeFile, extend, consoleLog.
  cbn [rowIndex worksheet autoFilterTo console disk w2].
  replace (2 + length (preorderAll f) - 1) with (1 + length (preorderAll f)) by lia.
  destruct cwdWritable; reflexivity.
Qed.

(** X7. Every run ends normally, whatever the tree.  Its rows are numbered
    from 2 without a gap, [rowIndex] is the number of the next free row, and
    the auto-filter reaches from the header to the last row.  If the output
    file can be created, exactly this worksheet is written, once, and the
    last line printed says so; if not, nothing is written and the last line
    printed reports the error. *)
Theorem run_accounting (pf : platform) (exts : option (gset string))
    (root : node) (basePath cwd : fpath) (cwdWritable : bool) :
  let outputPath := path_join cwd "directory-tree.xlsx" in
  let w := run pf exts root basePath cwd cwdWritable in
  fst (generateExcel pf exts root basePath cwd cwdWritable initialWorld) = Returned tt
  /\ rowIndex w = 2 + length (entries w)
  /\ map fst (worksheet w) = seq 2 (length (entries w))
  /\ autoFilterTo w = Some (1 + length (entries w))
  /\ disk w = (if cwdWritable then [(outputPath, mkFile (worksheet w) (autoFilterTo w))]
               else [])
  /\ exists logs,
       console w = logs ++ [if cwdWritable then LogGenerated outputPath
                            else ErrGeneratingExcel (Ewrite outputPath)].
Proof.
  intros outputPath w. subst w. unfold run.
  destruct (run_world pf exts root basePath cwd cwdWritable) as (es & logs & ->).
  unfold entries. cbn [fst snd rowIndex worksheet autoFilterTo console disk].
  rewrite map_snd_numbered, map_fst_numbered.
  repeat split. exists logs. reflexivity.
Qed.

(** *** The search of [hasIncludedFiles] *)

Lemma checkItems_app_readable pf exts currentPath pre rest :
  errorFree (DirNode pre) = true ->
  checkItems pf exts currentPath (pre ++ rest) false
  = if containsIncluded pf exts (DirNode pre) then (Returned true, true)
    else checkItems pf exts currentPath rest false.
Proof.
  induction pre as [|[item child] pre IH]; intros Hfree; [reflexivity|].
  rewrite errorFree_cons in Hfree. apply andb_true_iff in Hfree as [Hc Hpre].
  change (((item, child) :: pre) ++ rest) with ((item, child) :: (pre ++ rest)).
  rewrite checkItems_cons, containsIncluded_cons.
  destruct child as [content|sub| |]; try discriminate; cbn [statSync_isDirectory]; cbv iota.
  - destruct (shouldIncludeFile pf exts item); [reflexivity|apply IH, Hpre].
  - rewrite checkDir_unfold. cbn [readdirSync]. cbv iota.
    pose proof (checkItems_errorFree pf exts (DirNode sub) Hc (path_join currentPath item))
      as Hsub.
    change (childItems (DirNode sub)) with sub in Hsub. rewrite Hsub.
    destruct (containsIncluded pf exts (DirNode sub)); [reflexivity|apply IH, Hpre].
Qed.

(** X8. With a filter, [hasIncludedFiles] stops at the first file that
    passes: if the readable beginning of a listing holds such a file, the
    answer is [true] whatever follows in the listing, readable or not. *)
Theorem hasIncludedFiles_stops_at_first_match (pf : platform) (exts : gset string)
    (pre rest : list (string * node)) (dirPath : fpath)
    (Hfree : errorFree (DirNode pre) = true)
    (Hfound : containsIncluded pf (Some exts) (DirNode pre) = true) :
  hasIncludedFiles pf (Some exts) (DirNode (pre ++ rest)) dirPath = Returned true.
Proof.
  unfold hasIncludedFiles. rewrite checkDir_unfold. cbn [readdirSync]. cbv iota.
  rewrite checkItems_app_readable by exact Hfree. rewrite Hfound. reflexivity.
Qed.

Lemma hasIncludedFiles_stops_at_first_match_witness :
  hasIncludedFiles Posix (Some {[ "ts" ]})
    (DirNode [("src", DirNode [("a.ts", FileNode None)]); ("gone", NoStat)]) ["project"]
  = Returned true.
Proof.
  apply (hasIncludedFiles_stops_at_first_match Posix {[ "ts" ]}
           [("src", DirNode [("a.ts", FileNode None)])] [("gone", NoStat)] ["project"]
           eq_refl).
  vm_compute. reflexivity.
Defined.

(** X9. With a filter, a child that [statSync] cannot examine, met before
    any passing file, makes [hasIncludedFiles] throw, so [processDirectory]
    writes no entry for the directory's children and prints the error; this
    does not depend on the exclusion list, so excluding the broken child does
    not help. *)
Theorem unexaminable_child_hides_directory_under_filter (pf : platform) (exts : gset string)
    (excludeList : gset string) (basePath dirPath : fpath) (level : nat)
    (pre rest : list (string * node)) (item : string) (w : world)
    (Hfree : errorFree (DirNode pre) = true)
    (Hnone : containsIncluded pf (Some exts) (DirNode pre) = false) :
  hasIncludedFiles pf (Some exts) (DirNode (pre ++ (item, NoStat) :: rest)) dirPath
  = Thrown (Estat (path_join dirPath item))
  /\ processDirectory pf (Some exts) (DirNode (pre ++ (item, NoStat) :: rest)) dirPath basePath
                      excludeList level w
     = (Returned tt,
        extend w [] [ErrProcessingDirectory dirPath (Estat (path_join dirPath item))]).
Proof.
  assert (Hhas : hasIncludedFiles pf (Some exts) (DirNode (pre ++ (item, NoStat) :: rest)) dirPath
                 = Thrown (Estat (path_join dirPath item))).
  { unfold hasIncludedFiles. rewrite checkDir_unfold. cbn [readdirSync]. cbv iota.
    rewrite checkItems_app_readable by exact Hfree. rewrite Hnone. reflexivity. }
  split; [exact Hhas|].
  rewrite processDirectory_unfold. unfold tryCatch, bind, lift. cbn [readdirSync].
  rewrite Hhas. apply consoleLog_extend.
Qed.

Lemma unexaminable_child_hides_directory_under_filter_witness :
  entries (snd (processDirectory Posix (Some {[ "ts" ]})
                  (DirNode [("notes.md", FileNode None); ("gone", NoStat);
                            ("a.ts", FileNode None)])
                  ["project"] ["project"] {[ exclusionFileName; "gone" ]} 0 initialWorld))
  = [].
Proof.
  assert (Hnone : containsIncluded Posix (Some {[ "ts" ]})
                    (DirNode [("notes.md", FileNode None)]) = false)
    by (vm_compute; reflexivity).
  rewrite (proj2 (unexaminable_child_hides_directory_under_filter Posix {[ "ts" ]}
                    {[ exclusionFileName; "gone" ]} ["project"] ["project"] 0
                    [("notes.md", FileNode None)] [("a.ts", FileNode None)] "gone"
                    initialWorld eq_refl Hnone)).
  reflexivity.
Defined.

(** X10. The exclusion test comes before [statSync]: when every child of a
    directory is excluded and the pruning test of the directory does not
    throw, [processDirectory] leaves the world as it was, whatever the
    children are, including children that cannot be examined. *)
Theorem excluded_children_are_not_examined (pf : platform) (exts : option (gset string))
    (excludeList : gset string) (basePath dirPath : fpath) (level : nat)
    (items : list (string * node)) (b : bool) (w : world)
    (Hpruning : hasIncludedFiles pf exts (DirNode items) dirPath = Returned b)
    (Hexcluded : forall item child,
        In (item, child) items ->
        shouldExclude pf (getRelativePath pf (path_join dirPath item) basePath) excludeList
        = true) :
  processDirectory pf exts (DirNode items) dirPath basePath excludeList level w
  = (Returned tt, w).
Proof.
  rewrite processDirectory_unfold. unfold tryCatch, bind, lift. cbn [readdirSync].
  rewrite Hpruning. destruct b; cbn [negb]; cbv beta iota; [|reflexivity].
  assert (Hloop : processItems pf exts dirPath basePath excludeList level items w
                  = (Returned tt, w)).
  { clear Hpruning. induction items as [|[item child] rest IH]; [reflexivity|].
    rewrite processItems_cons. unfold bind, processItem.
    rewrite (Hexcluded item child) by (left; reflexivity).
    unfold ret. apply IH. intros i c Hin. apply (Hexcluded i c). right. exact Hin. }
  rewrite Hloop. reflexivity.
Qed.

Lemma excluded_children_are_not_examined_witness :
  processDirectory Posix None (DirNode [("gone", NoStat); ("locked", DirNoList)])
    ["project"] ["project"] {[ "gone"; "locked" ]} 0 initialWorld
  = (Returned tt, initialWorld).
Proof.
  apply (excluded_children_are_not_examined Posix None {[ "gone"; "locked" ]}
           ["project"] ["project"] 0 [("gone", NoStat); ("locked", DirNoList)] true
           initialWorld eq_refl).
  intros item child [H|[H|[]]]; injection H as <- <-; vm_compute; reflexivity.
Defined.

(** *** Letter case and dots in the extension filter *)

Ltac byCases c := destruct c as [[] [] [] [] [] [] [] []]; reflexivity.

Lemma lowerChar_idempotent c : Js.lowerChar (Js.lowerChar c) = Js.lowerChar c.
Proof. byCases c. Qed.

Lemma lowerChar_dot c : Ascii.eqb (Js.lowerChar c) "."%char = Ascii.eqb c "."%char.
Proof. byCases c. Qed.

Lemma lowerChar_comma c : Ascii.eqb ","%char (Js.lowerChar c) = Ascii.eqb ","%char c.
Proof. byCases c. Qed.

Lemma lowerChar_colon c : Ascii.eqb (Js.lowerChar c) ":"%char = Ascii.eqb c ":"%char.
Proof. byCases c. Qed.

Lemma lowerChar_separator pf c :
  Extname.isPathSeparator pf (Js.lowerChar c) = Extname.isPathSeparator pf c.
Proof. destruct pf; byCases c. Qed.

Lemma lowerChar_deviceRoot c :
  Extname.isWindowsDeviceRoot (Js.lowerChar c) = Extname.isWindowsDeviceRoot c.
Proof. byCases c. Qed.

Lemma toLowerCase_idempotent s : Js.toLowerCase (Js.toLowerCase s) = Js.toLowerCase s.
Proof.
  induction s as [|c s IH]; simpl; [reflexivity|].
  rewrite lowerChar_idempotent, IH. reflexivity.
Qed.

Lemma toLowerCase_chars s :
  list_ascii_of_string (Js.toLowerCase s) = map Js.lowerChar (list_ascii_of_string s).
Proof. induction s as [|c s IH]; simpl; [reflexivity|]. rewrite IH. reflexivity. Qed.

Lemma toLowerCase_substring a b s :
  substring a b (Js.toLowerCase s) = Js.toLowerCase (substring a b s).
Proof.
  revert a b. induction s as [|c s IH]; intros a b; simpl.
  - destruct a, b; reflexivity.
  - destruct a as [|a].
    + destruct b as [|b]; simpl; [reflexivity|]. rewrite IH. reflexivity.
    + apply IH.
Qed.

Lemma scan_lowerChar pf l st :
  Extname.scan pf (map (fun ic : Z * ascii => (fst ic, Js.lowerChar (snd ic))) l) st
  = Extname.scan pf l st.
Proof.
  revert st. induction l as [|[i c] l IH]; intros st; [reflexivity|].
  simpl. rewrite lowerChar_separator, lowerChar_dot.
  destruct (Extname.isPathSeparator pf c).
  - destruct (negb (Extname.matchedSlash st)); [reflexivity|apply IH].
  - apply IH.
Qed.

Lemma indexed_toLowerCase s :
  Extname.indexed (Js.toLowerCase s)
  = map (fun ic : Z * ascii => (fst ic, Js.lowerChar (snd ic))) (Extname.indexed s).
Proof.
  unfold Extname.indexed. rewrite toLowerCase_chars, length_map.
  generalize (map Z.of_nat (seq 0 (length (list_ascii_of_string s)))) as idx.
  induction (list_ascii_of_string s) as [|c cs IH]; intros [|i idx]; simpl; try reflexivity.
  rewrite IH. reflexivity.
Qed.

Lemma start_toLowerCase pf s : Extname.start pf (Js.toLowerCase s) = Extname.start pf s.
Proof.
  destruct pf; [reflexivity|]. destruct s as [|c0 [|c1 s]]; try reflexivity.
  simpl. rewrite lowerChar_colon, lowerChar_deviceRoot. reflexivity.
Qed.

Lemma extname_toLowerCase pf s :
  Extname.extname pf (Js.toLowerCase s) = Js.toLowerCase (Extname.extname pf s).
Proof.
  unfold Extname.extname. rewrite start_toLowerCase, indexed_toLowerCase.
  rewrite List.skipn_map, <- List.map_rev, scan_lowerChar.
  destruct (_ || _); [reflexivity|]. apply toLowerCase_substring.
Qed.

(** X11. For a file name of ASCII characters the extension filter does not
    look at letter case: the name and its lower-case form get the same
    answer, under every filter. *)
Theorem shouldIncludeFile_ignores_case (pf : platform) (exts : option (gset string))
    (name : string) (Hascii : isAscii name = true) :
  shouldIncludeFile pf exts (Js.toLowerCase name) = shouldIncludeFile pf exts name.
Proof.
  unfold shouldIncludeFile. destruct exts as [e|]; [|reflexivity].
  rewrite extname_toLowerCase, toLowerCase_idempotent. reflexivity.
Qed.

Lemma shouldIncludeFile_ignores_case_witness :
  shouldIncludeFile Win32 (Some {[ "ts" ]}) "main.ts"
  = shouldIncludeFile Win32 (Some {[ "ts" ]}) "Main.TS".
Proof.
  apply (shouldIncludeFile_ignores_case Win32 (Some {[ "ts" ]}) "Main.TS" eq_refl).
Defined.

Lemma split_toLowerCase p s :
  (forall c, p (Js.lowerChar c) = p c) ->
  Js.split p (Js.toLowerCase s) = map Js.toLowerCase (Js.split p s).
Proof.
  intros Hp. induction s as [|c s IH]; simpl; [reflexivity|].
  rewrite Hp, IH. destruct (p c); [reflexivity|].
  pose proof (split_not_nil p s) as Hne.
  destruct (Js.split p s); [congruence|reflexivity].
Qed.

(** X12. An option value of ASCII characters is read without regard to
    letter case: the value of [--include-only-extensions] and its lower-case
    form give the same filter. *)
Theorem includedExtensionsOf_ignores_case (arg : string) (Hascii : isAscii arg = true) :
  includedExtensionsOf (Js.toLowerCase arg) = includedExtensionsOf arg.
Proof.
  unfold includedExtensionsOf.
  replace (Js.truthy (Js.toLowerCase arg)) with (Js.truthy arg) by (destruct arg; reflexivity).
  destruct (Js.truthy arg); [|reflexivity].
  rewrite (split_toLowerCase _ _ lowerChar_comma), map_map.
  f_equal. f_equal. apply map_ext. intros ext. rewrite toLowerCase_idempotent. reflexivity.
Qed.

Lemma includedExtensionsOf_ignores_case_witness :
  includedExtensionsOf "js, ts" = includedExtensionsOf "JS, Ts".
Proof.
  apply (includedExtensionsOf_ignores_case "JS, Ts" eq_refl).
Defined.

Lemma lastDot_no_dot s j t :
  lastDot s = Some (j, t) -> noneOf (fun c => Ascii.eqb c "."%char) t = true.
Proof.
  revert j. induction s as [|c s IH]; intros j; simpl; [discriminate|].
  destruct (lastDot s) as [[j' t']|] eqn:Hs.
  - intros [= <- <-]. apply (IH j' eq_refl).
  - destruct (Ascii.eqb c "."%char); [|discriminate]. intros [= <- <-].
    clear IH. induction s as [|c' s IH]; [reflexivity|].
    simpl in Hs |- *. destruct (lastDot s) as [[j' t']|]; [discriminate|].
    destruct (Ascii.eqb c' "."%char); [discriminate|]. apply IH. reflexivity.
Qed.

Lemma toLowerCase_no_dot t :
  noneOf (fun c => Ascii.eqb c "."%char) (Js.toLowerCase t)
  = noneOf (fun c => Ascii.eqb c "."%char) t.
Proof.
  induction t as [|c t IH]; simpl; [reflexivity|]. rewrite lowerChar_dot, IH. reflexivity.
Qed.

(** X13. The extension compared with the filter never holds a dot, so a
    filter whose entries all hold one (as in [.ts]) rejects every plain file
    name. *)
Theorem dotted_filter_rejects_every_file (pf : platform) (exts : gset string) (name : string)
    (Hplain : plainName pf name = true)
    (Hdotted : forall e, e ∈ exts -> noneOf (fun c => Ascii.eqb c "."%char) e = false) :
  shouldIncludeFile pf (Some exts) name = false.
Proof.
  unfold shouldIncludeFile.
  rewrite slice1_toLowerCase, ExtnameFacts.extname_plain by exact Hplain.
  apply bool_decide_eq_false. intros Hin. apply Hdotted in Hin.
  rewrite toLowerCase_no_dot in Hin.
  unfold onlyLeadingDot, textAfterLastDot in Hin.
  destruct (lastDot name) as [[[|j] t]|] eqn:Hld; try discriminate.
  rewrite (lastDot_no_dot name (S j) t Hld) in Hin. discriminate.
Qed.

Lemma dotted_filter_rejects_every_file_witness :
  shouldIncludeFile Posix (includedExtensionsOf ".ts,.tsx") "main.ts" = false.
Proof.
  change (includedExtensionsOf ".ts,.tsx") with (Some (list_to_set [".ts"; ".tsx"] : gset string)).
  apply (dotted_filter_rejects_every_file Posix (list_to_set [".ts"; ".tsx"]) "main.ts" eq_refl).
  intros e He. apply elem_of_list_to_set in He.
  apply list_elem_of_In in He. destruct He as [<-|[<-|[]]]; reflexivity.
Defined.

(** *** Normal forms and relative paths *)

(** X14. [normalizePath] keeps the segments of its input and nothing else:
    the result has the same segments, splitting it at the separators gives
    exactly these segments (so no separator stands first, last or next to
    another), it does not end in either separator, and it is empty exactly
    when the input has no segment. *)
Theorem normalizePath_shape (pf : platform) (x : string) :
  segmentsOf (normalizePath pf x) = segmentsOf x
  /\ (segmentsOf x <> [] -> Js.split isSlash (normalizePath pf x) = segmentsOf x)
  /\ (normalizePath pf x = "" <-> segmentsOf x = [])
  /\ Js.endsWithChar (normalizePath pf x) "/"%char = false
  /\ Js.endsWithChar (normalizePath pf x) "\"%char = false.
Proof.
  pose proof (normalizePath_segments x) as Hsegs. fold (segmentsOf x) in Hsegs.
  rewrite normalizePath_segmentsOf. split; [apply segmentsOf_join, Hsegs|].
  split; [|split; [|split]].
  - intros Hne. unfold path_sep. apply split_join.
    + apply isSlash_sepChar.
    + exact Hne.
    + eapply Forall_impl; [exact Hsegs|]. intros a. apply isSegment_free.
  - split; [apply join_nil_iff, Hsegs|]. intros ->. reflexivity.
  - apply join_segments_no_trailing_separator; [exact Hsegs|reflexivity].
  - apply join_segments_no_trailing_separator; [exact Hsegs|reflexivity].
Qed.

Lemma normalizePath_shape_witness :
  Js.split isSlash (normalizePath Win32 "//src\\lib/") = ["src"; "lib"].
Proof.
  apply (proj1 (proj2 (normalizePath_shape Win32 "//src\\lib/"))). discriminate.
Defined.

(** X15. For a path below the base whose segments are valid names,
    [getRelativePath] gives these segments joined by [/], on either platform,
    and the segments can be read back from it; for the base itself it gives
    the empty string. *)
Theorem getRelativePath_below_base (pf : platform) (base rel : fpath)
    (Hrel : Forall (fun s => validName pf s = true) rel) :
  getRelativePath pf (base ++ rel) base = Js.join "/" rel
  /\ pathSegments (getRelativePath pf (base ++ rel) base) = rel
  /\ getRelativePath pf base base = "".
Proof.
  assert (Hself : getRelativePath pf base base = "").
  { unfold getRelativePath, path_relative.
    pose proof (relativeSegs_below base []) as Hnil. rewrite app_nil_r in Hnil.
    rewrite Hnil. reflexivity. }
  assert (Heq : getRelativePath pf (base ++ rel) base = Js.join "/" rel).
  { destruct rel as [|r rel]; [rewrite app_nil_r; exact Hself|].
    apply getRelativePath_below; [exact Hrel|discriminate]. }
  split; [exact Heq|]. split; [|exact Hself].
  rewrite Heq. apply (pathSegments_join pf), Hrel.
Qed.

Lemma getRelativePath_below_base_witness :
  getRelativePath Win32 ["C:"; "work"; "src"; "a.js"] ["C:"; "work"] = "src/a.js".
Proof.
  apply (proj1 (getRelativePath_below_base Win32 ["C:"; "work"] ["src"; "a.js"]
                  ltac:(repeat constructor))).
Defined.

(** *** Exclusion and the set *)

Lemma segmentsOf_leading_separator c x : isSlash c = true -> segmentsOf (String c x) = segmentsOf x.
Proof.
  intros Hc. change (String c x) with ("" +:+ String c x).
  rewrite segmentsOf_app_separator by exact Hc. reflexivity.
Qed.

(** X16. [shouldExclude] sees a path only through its normal form: two
    paths that differ in which separator is used get the same answer, and a
    separator put before or after a path changes nothing.  Adding entries
    to the set never turns an excluded path into one that is kept, and the
    empty set excludes nothing. *)
Theorem shouldExclude_path_and_set (pf : platform) (x : string) (excl : gset string) :
  (forall y, sameUpToSeparator x y = true -> shouldExclude pf x excl = shouldExclude pf y excl)
  /\ shouldExclude pf ("/" +:+ x) excl = shouldExclude pf x excl
  /\ shouldExclude pf (x +:+ "/") excl = shouldExclude pf x excl
  /\ (forall more : gset string,
         shouldExclude pf x excl = true -> shouldExclude pf x (excl ∪ more) = true)
  /\ shouldExclude pf x ∅ = false.
Proof.
  split; [|split; [|split; [|split]]].
  - intros y Hxy. unfold shouldExclude, normalizePath.
    rewrite (split_sameUpToSeparator x y Hxy). reflexivity.
  - unfold shouldExclude. rewrite !normalizePath_segmentsOf.
    change ("/" +:+ x) with (String "/"%char x).
    rewrite segmentsOf_leading_separator by reflexivity. reflexivity.
  - apply shouldExclude_trailing_slash.
  - intros more. rewrite !shouldExclude_true_iff.
    intros [Hin|(e & He & Hm)].
    + left. apply elem_of_union. left. exact Hin.
    + right. exists e. split; [apply elem_of_union; left; exact He|exact Hm].
  - apply not_true_is_false. rewrite shouldExclude_true_iff.
    intros [Hin|(e & He & _)];
      [exact (not_elem_of_empty (C := gset string) _ Hin)
      |exact (not_elem_of_empty (C := gset string) _ He)].
Qed.

Lemma shouldExclude_path_and_set_witness :
  shouldExclude Win32 "src/lib\a.js" {[ "src\lib\a.js" ]}
  = shouldExclude Win32 "src\lib/a.js" {[ "src\lib\a.js" ]}.
Proof.
  apply (proj1 (shouldExclude_path_and_set Win32 "src/lib\a.js" {[ "src\lib\a.js" ]})).
  reflexivity.
Defined.

(** *** The report of a run on a tree that can be read *)

(** X17. When every directory below the root can be listed and every child
    examined, the entries of the report are those [expectedEntries] computes
    from the tree, the extension filter and the exclusion list that
    [getExclusionList] read, starting at level 0. *)
Theorem run_on_readable_tree (pf : platform) (exts : option (gset string))
    (items : list (string * node)) (basePath cwd : fpath) (cwdWritable : bool)
    (Hfree : errorFree (DirNode items) = true) :
  exists excl,
    fst (getExclusionList pf (DirNode items) basePath initialWorld) = Returned excl
    /\ entries (run pf exts (DirNode items) basePath cwd cwdWritable)
       = expectedEntries pf exts excl basePath (DirNode items) basePath 0.
Proof.
  destruct (getExclusionList_returns pf (DirNode items) basePath initialWorld)
    as (excl & w1 & Hget & (logs & Hw1) & _).
  simpl in Hw1. exists excl. rewrite Hget. split; [reflexivity|].
  unfold run, generateExcel, tryCatch, bind. rewrite Hget, Hw1.
  unfold consoleLog at 1. cbn [rowIndex worksheet autoFilterTo console disk].
  destruct ((match exts with
             | Some e => consoleLog (LogIncludingOnly e)
             | None => ret tt
             end) (mkWorld 2 [] None (logs ++ [LogExcludedItems excl]) []))
    as [o w2] eqn:Hlog.
  assert (Hw2 : o = Returned tt /\ worksheet w2 = []).
  { destruct exts; injection Hlog as <- <-; split; reflexivity. }
  destruct Hw2 as [-> Hw2].
  rewrite (processDirectory_readable pf exts excl basePath items Hfree basePath 0 w2).
  unfold setAutoFilter, writeFile, extend, consoleLog, entries.
  cbn [rowIndex worksheet autoFilterTo console disk].
  destruct cwdWritable; cbn [fst snd worksheet]; rewrite Hw2; apply map_snd_numbered.
Qed.

Lemma run_on_readable_tree_witness :
  exists excl,
    fst (getExclusionList Posix
           (DirNode [(exclusionFileName, FileNode (Some "dist")); ("dist", DirNode []);
                     ("a.js", FileNode None)])
           ["project"] initialWorld) = Returned excl
    /\ entries (run Posix None
                    (DirNode [(exclusionFileName, FileNode (Some "dist")); ("dist", DirNode []);
                              ("a.js", FileNode None)])
                    ["project"] ["out"] true)
       = expectedEntries Posix None excl ["project"]
           (DirNode [(exclusionFileName, FileNode (Some "dist")); ("dist", DirNode []);
                     ("a.js", FileNode None)])
           ["project"] 0.
Proof.
  apply (run_on_readable_tree Posix None
           [(exclusionFileName, FileNode (Some "dist")); ("dist", DirNode []);
            ("a.js", FileNode None)]
           ["project"] ["out"] true eq_refl).
Defined.


(** ** A directory line of the exclusion file *)





(** ** Where an error is caught and what is logged *)

Lemma statSync_error n p e : statSync_isDirectory n p = Thrown e -> e = Estat p.
Proof. destruct n; simpl; congruence. Qed.

Lemma checkDir_error_beneath pf exts n :
  forall p h e h',
    checkDir pf exts n p h = (Thrown e, h') -> exists deeper, errorPath e = p ++ deeper.
Proof.
  induction n as [content|items IH| |] using node_ind_nested; intros p h e h' H;
    rewrite checkDir_unfold in H; cbn [readdirSync] in H.
  1,3,4: injection H as <- _; exists []; rewrite app_nil_r; reflexivity.
  revert h H. induction IH as [|[item child] rest Hchild _ IHrest]; intros h H.
  - discriminate.
  - rewrite checkItems_cons in H. cbn [snd] in Hchild.
    destruct (statSync_isDirectory child (path_join p item)) as [[|]|e0] eqn:Hstat.
    + destruct (checkDir pf exts child (path_join p item) h) as [[[|]|e1] h1] eqn:Hc.
      * discriminate.
      * apply (IHrest h1 H).
      * injection H as <- _. destruct (Hchild _ _ _ _ Hc) as (deeper & ->).
        exists (item :: deeper). unfold path_join. rewrite <- app_assoc. reflexivity.
    + destruct (shouldIncludeFile pf exts item); [discriminate|apply (IHrest h H)].
    + injection H as <- _. rewrite (statSync_error _ _ _ Hstat). exists [item]. reflexivity.
Qed.

Lemma hasIncludedFiles_error_beneath pf exts n p e :
  hasIncludedFiles pf exts n p = Thrown e -> exists deeper, errorPath e = p ++ deeper.
Proof.
  unfold hasIncludedFiles. destruct exts as [x|]; [|discriminate].
  destruct (checkDir pf (Some x) n p false) as [o h'] eqn:Hc. simpl. intros ->.
  apply (checkDir_error_beneath _ _ _ _ _ _ _ Hc).
Qed.

Lemma loggedBeneath_up dirPath item l :
  loggedBeneath (path_join dirPath item) l -> loggedBeneath dirPath l.
Proof.
  destruct l as [| | |d e| |]; simpl; try tauto.
  intros (below & deeper & -> & He). exists (item :: below), deeper.
  split; [|exact He]. unfold path_join. rewrite <- app_assoc. reflexivity.
Qed.

Section Logged.

Variable pf : platform.
Variable exts : option (gset string).
Variable excludeList : gset string.
Variable basePath : fpath.

Abbreviation walksLogged :=
  (fun n : node =>
     forall dirPath level w,
     exists es logs,
       processDirectory pf exts n dirPath basePath excludeList level w
       = (Returned tt, extend w es logs)
       /\ Forall (loggedBeneath dirPath) logs).

Abbreviation stepsLogged :=
  (fun (m : M unit) (dirPath : fpath) (w : world) =>
     exists es logs o,
       m w = (o, extend w es logs)
       /\ Forall (loggedBeneath dirPath) logs
       /\ forall e, o = Thrown e -> exists deeper, errorPath e = dirPath ++ deeper).

Lemma processItem_logged item child :
  walksLogged child ->
  forall dirPath level w,
    stepsLogged (processItem pf exts dirPath basePath excludeList level item child) dirPath w.
Proof.
  intros IH dirPath level w. unfold processItem.
  assert (Hquiet : exists (es : list Entry) (logs : list logline) (o : outcome unit),
             (Returned tt, w) = (o, extend w es logs)
             /\ Forall (loggedBeneath dirPath) logs
             /\ forall e, o = Thrown e -> exists deeper, errorPath e = dirPath ++ deeper).
  { exists [], [], (Returned tt). rewrite extend_nil.
    split; [reflexivity|]. split; [constructor|discriminate]. }
  assert (Hthrow : forall e deeper, errorPath e = path_join dirPath item ++ deeper ->
             exists (es : list Entry) (logs : list logline) (o : outcome unit),
               (Thrown e, w) = (o, extend w es logs)
               /\ Forall (loggedBeneath dirPath) logs
               /\ forall e', o = Thrown e' -> exists deeper', errorPath e' = dirPath ++ deeper').
  { intros e deeper He. exists [], [], (Thrown e). rewrite extend_nil.
    split; [reflexivity|]. split; [constructor|].
    intros e' [= <-]. exists (item :: deeper). rewrite He. unfold path_join.
    rewrite <- app_assoc. reflexivity. }
  destruct (shouldExclude pf _ excludeList); [exact Hquiet|].
  unfold bind, lift, ret.
  destruct (statSync_isDirectory child (path_join dirPath item)) as [isDirectory|e] eqn:Hstat.
  2:{ apply (Hthrow e []). rewrite (statSync_error _ _ _ Hstat), app_nil_r. reflexivity. }
  destruct isDirectory; cbn [negb andb]; cbv beta iota.
  - destruct (hasIncludedFiles pf exts child (path_join dirPath item)) as [b|e] eqn:Hhas.
    2:{ destruct (hasIncludedFiles_error_beneath _ _ _ _ _ Hhas) as (deeper & He).
        apply (Hthrow e deeper He). }
    destruct b; cbn [negb]; cbv beta iota; [|exact Hquiet].
    rewrite addRow_extend.
    destruct (IH (path_join dirPath item) (level + 1)
                 (extend w [rowFor level true item
                              (getRelativePath pf (path_join dirPath item) basePath)] []))
      as (es & logs & Hrun & Hlogs).
    rewrite Hrun, extend_extend. eexists _, _, (Returned tt).
    split; [reflexivity|]. split; [|discriminate].
    eapply Forall_impl; [exact Hlogs|]. intros l. apply loggedBeneath_up.
  - destruct (shouldIncludeFile pf exts item); cbn [negb]; cbv beta iota; [|exact Hquiet].
    rewrite addRow_extend. eexists _, [], (Returned tt).
    split; [reflexivity|]. split; [constructor|discriminate].
Qed.

Lemma processItems_logged items :
  Forall (fun ic => walksLogged (snd ic)) items ->
  forall dirPath level w,
    stepsLogged (processItems pf exts dirPath basePath excludeList level items) dirPath w.
Proof.
  induction 1 as [|[item child] items Hchild _ IH]; intros dirPath level w.
  - exists [], [], (Returned tt). simpl. unfold ret. rewrite extend_nil.
    split; [reflexivity|]. split; [constructor|discriminate].
  - rewrite processItems_cons. unfold bind.
    destruct (processItem_logged item child Hchild dirPath level w)
      as (es & logs & o & Hrun & Hlogs & Herr).
    rewrite Hrun. destruct o as [[]|e].
    + destruct (IH dirPath level (extend w es logs)) as (es' & logs' & o' & Hrun' & Hlogs' & Herr').
      rewrite Hrun', extend_extend. exists (es ++ es'), (logs ++ logs'), o'.
      split; [reflexivity|]. split; [apply Forall_app; split; assumption|exact Herr'].
    + exists es, logs, (Thrown e). split; [reflexivity|]. split; [exact Hlogs|exact Herr].
Qed.

Lemma processDirectory_logged n : walksLogged n.
Proof.
  induction n as [content|items IH| |] using node_ind_nested;
    intros dirPath level w; rewrite processDirectory_unfold.
  1,3,4: unfold tryCatch, bind, lift; cbn [readdirSync]; rewrite consoleLog_extend;
         exists [], [ErrProcessingDirectory dirPath (Escandir dirPath)];
         split; [reflexivity|];
         constructor; [|constructor];
         exists [], []; rewrite !app_nil_r; split; reflexivity.
  unfold tryCatch, bind, lift. cbn [readdirSync].
  destruct (hasIncludedFiles pf exts (DirNode items) dirPath) as [b|e] eqn:Hhas.
  - destruct b; cbn [negb]; cbv beta iota.
    + destruct (processItems_logged items IH dirPath level w)
        as (es & logs & o & Hrun & Hlogs & Herr).
      rewrite Hrun. destruct o as [[]|e].
      * exists es, logs. split; [reflexivity|exact Hlogs].
      * rewrite consoleLog_extend, extend_extend, app_nil_r.
        exists es, (logs ++ [ErrProcessingDirectory dirPath e]).
        split; [reflexivity|]. apply Forall_app. split; [exact Hlogs|].
        constructor; [|constructor]. destruct (Herr e eq_refl) as (deeper & He).
        exists [], deeper. rewrite app_nil_r. split; [reflexivity|exact He].
    + exists [], []. unfold ret. rewrite extend_nil. split; [reflexivity|constructor].
  - rewrite consoleLog_extend. exists [], [ErrProcessingDirectory dirPath e].
    split; [reflexivity|]. constructor; [|constructor].
    destruct (hasIncludedFiles_error_beneath _ _ _ _ _ Hhas) as (deeper & He).
    exists [], deeper. rewrite app_nil_r. split; [reflexivity|exact He].
Qed.

End Logged.

(** C3, as the code has it.  A call of [processDirectory] never throws and
    keeps the rows and console lines that were there; each line it prints
    names a directory that is the one it was called on or lies beneath it,
    with an error whose path is that directory or lies beneath it.  An error
    is caught by the call that is running when it is raised, and ends the
    loop of that call:
    - when the pruning test of the directory itself throws (which needs an
      extension filter, and may come from any depth beneath the directory),
      nothing is written for the directory and the error is logged with the
      directory's path;
    - when that test returned [true] and [statSync] fails on a child that is
      not excluded, the error is logged with the path of the directory that
      holds the child, and the children after it are not processed;
    - when that test returned [true] and the pruning test of a child
      directory that is not excluded throws, the child has no entry, the
      error is logged with the path of the directory that holds the child,
      and the children after it are not processed;
    - when, without an extension filter, a child directory cannot be listed,
      the child has its entry, the error is logged with the child's path, and
      the loop goes on with the next sibling. *)
Theorem errors_are_caught_per_directory (pf : platform) (exts : option (gset string))
    (excludeList : gset string) (basePath dirPath : fpath) (level : nat)
    (pre post : list (string * node)) (item : string) (w w1 : world)
    (Hpre : processItems pf exts dirPath basePath excludeList level pre w = (Returned tt, w1))
    (Hkept : shouldExclude pf (getRelativePath pf (path_join dirPath item) basePath)
                           excludeList = false) :
  (forall n dirPath' level' w',
      exists es logs,
        processDirectory pf exts n dirPath' basePath excludeList level' w'
        = (Returned tt, extend w' es logs)
        /\ Forall (loggedBeneath dirPath') logs)
  /\ (forall child e,
         hasIncludedFiles pf exts (DirNode (pre ++ (item, child) :: post)) dirPath = Thrown e ->
         processDirectory pf exts (DirNode (pre ++ (item, child) :: post)) dirPath basePath
                          excludeList level w
         = (Returned tt, extend w [] [ErrProcessingDirectory dirPath e]))
  /\ (hasIncludedFiles pf exts (DirNode (pre ++ (item, NoStat) :: post)) dirPath
      = Returned true ->
      processDirectory pf exts (DirNode (pre ++ (item, NoStat) :: post)) dirPath basePath
                       excludeList level w
      = (Returned tt,
         extend w1 [] [ErrProcessingDirectory dirPath (Estat (path_join dirPath item))]))
  /\ (forall child e,
         hasIncludedFiles pf exts (DirNode (pre ++ (item, child) :: post)) dirPath
         = Returned true ->
         statSync_isDirectory child (path_join dirPath item) = Returned true ->
         hasIncludedFiles pf exts child (path_join dirPath item) = Thrown e ->
         processDirectory pf exts (DirNode (pre ++ (item, child) :: post)) dirPath basePath
                          excludeList level w
         = (Returned tt, extend w1 [] [ErrProcessingDirectory dirPath e]))
  /\ (exts = None ->
      processItems pf exts dirPath basePath excludeList level
                   (pre ++ (item, DirNoList) :: post) w
      = processItems pf exts dirPath basePath excludeList level post
          (extend w1
             [rowFor level true item (getRelativePath pf (path_join dirPath item) basePath)]
             [ErrProcessingDirectory (path_join dirPath item)
                                     (Escandir (path_join dirPath item))])).
Proof.
  split; [|split; [|split; [|split]]].
  - intros n dirPath' level' w'. apply processDirectory_logged.
  - intros child e Hhas. rewrite processDirectory_unfold. unfold tryCatch, bind, lift.
    cbn [readdirSync]. rewrite Hhas. apply consoleLog_extend.
  - intros Hhas. rewrite processDirectory_unfold. unfold tryCatch, bind, lift.
    cbn [readdirSync]. rewrite Hhas. cbn [negb]. cbv beta iota.
    rewrite processItems_app, Hpre, processItems_cons. unfold bind, processItem.
    rewrite Hkept. unfold bind, lift. cbn [statSync_isDirectory].
    apply consoleLog_extend.
  - intros child e Hhas Hstat Hchild. rewrite processDirectory_unfold.
    unfold tryCatch, bind, lift. cbn [readdirSync]. rewrite Hhas. cbn [negb]. cbv beta iota.
    rewrite processItems_app, Hpre, processItems_cons. unfold bind, processItem.
    rewrite Hkept. unfold bind, lift. rewrite Hstat. cbn [negb andb]. cbv beta iota.
    rewrite Hchild. apply consoleLog_extend.
  - intros ->. rewrite processItems_app, Hpre, processItems_cons. unfold bind at 1.
    unfold processItem. rewrite Hkept. unfold bind, lift, ret.
    cbn [statSync_isDirectory hasIncludedFiles negb andb]. cbv beta iota.
    rewrite addRow_extend, processDirectory_unfold. unfold tryCatch, bind, lift.
    cbn [readdirSync]. rewrite consoleLog_extend, extend_extend. reflexivity.
Qed.

Lemma errors_are_caught_per_directory_witness :
  processDirectory Posix (Some {[ "ts" ]})
    (DirNode [("a.ts", FileNode None);
              ("sub", DirNode [("deep", DirNode [("gone", NoStat)])]);
              ("last.ts", FileNode None)])
    ["project"] ["project"] {[ exclusionFileName ]} 0 initialWorld
  = (Returned tt,
     extend (extend initialWorld [mkEntry 0 "File" "a.ts" "a.ts" "pending"] [])
            [] [ErrProcessingDirectory ["project"]
                  (Estat ["project"; "sub"; "deep"; "gone"])]).
Proof.
  assert (Hpre : processItems Posix (Some {[ "ts" ]}) ["project"] ["project"]
                   {[ exclusionFileName ]} 0 [("a.ts", FileNode None)] initialWorld
                 = (Returned tt,
                    extend initialWorld [mkEntry 0 "File" "a.ts" "a.ts" "pending"] []))
    by (vm_compute; reflexivity).
  assert (Hkept : shouldExclude Posix
                    (getRelativePath Posix (path_join ["project"] "sub") ["project"])
                    {[ exclusionFileName ]} = false)
    by (vm_compute; reflexivity).
  apply (proj1 (proj2 (proj2 (proj2
           (errors_are_caught_per_directory Posix (Some {[ "ts" ]}) {[ exclusionFileName ]}
              ["project"] ["project"] 0
              [("a.ts", FileNode None)] [("last.ts", FileNode None)] "sub"
              initialWorld
              (extend initialWorld [mkEntry 0 "File" "a.ts" "a.ts" "pending"] [])
              Hpre Hkept))))
           (DirNode [("deep", DirNode [("gone", NoStat)])])
           (Estat ["project"; "sub"; "deep"; "gone"])); vm_compute; reflexivity.
Defined.

(** ** The name of an entry *)

Lemma locates_skip ic items p n : locates items p n -> locates (ic :: items) p n.
Proof.
  intros H. destruct H as [items item child Hin|items item child p n Hin Hp].
  - apply locates_here. right. exact Hin.
  - eapply locates_below; [right; exact Hin|exact Hp].
Qed.

(** Every entry beneath [dirPath] is the row of an item of the tree, found
    by following names from the listing, and carries that item's path. *)
Lemma shadows_locates pf exts excl base dirPath level items f :
  shadows pf exts excl base dirPath level items f ->
  forall e, In e (preorderAll f) ->
  exists more item child isDirectory,
    locates items (more ++ [item]) child
    /\ statSync_isDirectory child (path_join (dirPath ++ more) item) = Returned isDirectory
    /\ e = rowFor (level + length more) isDirectory item
                  (getRelativePath pf (path_join (dirPath ++ more) item) base).
Proof.
  induction 1 as [dirPath level
                 |dirPath level item child rest f _ IH
                 |dirPath level item child rest f relativePath _ Hstat _ _ IH
                 |dirPath level item child rest fc f relativePath _ Hstat _ _ IHc _ IH];
    intros e He.
  - destruct He.
  - destruct (IH e He) as (more & x & c & isDir & Hloc & Hst & Hrow).
    exists more, x, c, isDir. split; [apply locates_skip, Hloc|]. split; assumption.
  - rewrite preorderAll_cons in He. destruct He as [<-|He].
    + exists [], item, child, false. rewrite app_nil_r, Nat.add_0_r.
      split; [apply locates_here; left; reflexivity|]. split; [exact Hstat|reflexivity].
    + destruct (IH e He) as (more & x & c & isDir & Hloc & Hst & Hrow).
      exists more, x, c, isDir. split; [apply locates_skip, Hloc|]. split; assumption.
  - rewrite preorderAll_cons in He. destruct He as [<-|He].
    + exists [], item, child, true. rewrite app_nil_r, Nat.add_0_r.
      split; [apply locates_here; left; reflexivity|]. split; [exact Hstat|reflexivity].
    + apply in_app_or in He as [He|He].
      * destruct (IHc e He) as (more & x & c & isDir & Hloc & Hst & Hrow).
        exists (item :: more), x, c, isDir.
        unfold path_join in Hst, Hrow |- *.
        repeat rewrite <- app_assoc in Hst. repeat rewrite <- app_assoc in Hrow.
        repeat rewrite <- app_assoc. simpl app in Hst, Hrow |- *.
        split; [|split].
        -- eapply locates_below; [left; reflexivity|exact Hloc].
        -- exact Hst.
        -- rewrite Hrow. simpl length. f_equal. lia.
      * destruct (IH e He) as (more & x & c & isDir & Hloc & Hst & Hrow).
        exists more, x, c, isDir. split; [apply locates_skip, Hloc|]. split; assumption.
Qed.

Lemma validNode_In pf items item child :
  validNode pf (DirNode items) = true -> In (item, child) items ->
  validName pf item = true /\ validNode pf child = true.
Proof.
  induction items as [|[x c] items IH]; intros Hvalid Hin; [destruct Hin|].
  rewrite validNode_cons in Hvalid. apply andb_true_iff in Hvalid as [Hxc Hrest].
  apply andb_true_iff in Hxc as [Hx Hc].
  destruct Hin as [[= <- <-]|Hin]; [split; assumption|apply IH; assumption].
Qed.

Lemma locates_valid pf items p n :
  locates items p n -> validNode pf (DirNode items) = true ->
  Forall (fun s => validName pf s = true) p.
Proof.
  induction 1 as [items item child Hin|items item child p n Hin _ IH]; intros Hvalid;
    destruct (validNode_In pf items item child Hvalid Hin) as [Hitem Hchild].
  - constructor; [exact Hitem|constructor].
  - constructor; [exact Hitem|]. apply IH, validNode_childItems, Hchild.
Qed.

Lemma string_app_length a b : String.length (a +:+ b) = String.length a + String.length b.
Proof. induction a as [|c a IH]; simpl; [reflexivity|]. rewrite IH. reflexivity. Qed.

Lemma repeat_spaces_length k : String.length (Js.repeat "  " k) = 2 * k.
Proof. induction k as [|k IH]; simpl; [reflexivity|]. rewrite IH. lia. Qed.

Lemma noneOf_app p a b : noneOf p (a +:+ b) = noneOf p a && noneOf p b.
Proof.
  induction a as [|c a IH]; simpl; [reflexivity|]. rewrite IH, andb_assoc. reflexivity.
Qed.

Lemma repeat_spaces_free pf k : noneOf (Extname.isPathSeparator pf) (Js.repeat "  " k) = true.
Proof. induction k as [|k IH]; simpl; [reflexivity|]. rewrite IH. destruct pf; reflexivity. Qed.

(** C5, as the code has it.  On a tree of valid names every entry is the row
    of one item of the tree, reached from the root by the segments of the
    entry's own path; the level is the number of segments before the last,
    and the name is the raw name of that item, the last segment, after two
    spaces for each level.  The name holds no path separator, and it is the
    raw name alone exactly at level 0. *)
Theorem entry_name_is_indented_item (pf : platform) (exts : option (gset string))
    (root : node) (basePath cwd : fpath) (cwdWritable : bool)
    (Hvalid : validNode pf root = true) (e : Entry) :
  In e (entries (run pf exts root basePath cwd cwdWritable)) ->
  exists rel item child,
    locates (childItems root) (rel ++ [item]) child
    /\ pathSegments (e_path e) = rel ++ [item]
    /\ e_level e = length rel
    /\ e_name e = Js.repeat "  " (e_level e) +:+ item
    /\ noneOf (Extname.isPathSeparator pf) (e_name e) = true
    /\ (e_name e = item <-> e_level e = 0).
Proof.
  destruct (run_entries pf exts root basePath cwd cwdWritable) as (excl & f & _ & Hf & _ & ->).
  intros He.
  destruct (shadows_locates _ _ _ _ _ _ _ _ Hf e He)
    as (rel & item & child & isDir & Hloc & _ & ->).
  pose proof (locates_valid pf _ _ _ Hloc (validNode_childItems pf root Hvalid)) as Hall.
  exists rel, item, child. split; [exact Hloc|].
  unfold path_join. rewrite <- app_assoc.
  rewrite getRelativePath_below by (try exact Hall; destruct rel; discriminate).
  cbn [rowFor e_path e_level e_name]. simpl Nat.add.
  assert (Hitem : validName pf item = true).
  { apply Forall_app in Hall as [_ Hitem]. inversion Hitem; subst. assumption. }
  split; [|split; [reflexivity|split; [reflexivity|split]]].
  - destruct isDir.
    + apply (pathSegments_join_slash pf), Hall.
    + rewrite string_app_nil_r. apply (pathSegments_join pf), Hall.
  - rewrite noneOf_app, repeat_spaces_free. unfold validName in Hitem.
    apply andb_true_iff in Hitem as [_ Hfree]. exact Hfree.
  - split.
    + intros Heq. apply (f_equal String.length) in Heq.
      rewrite string_app_length, repeat_spaces_length in Heq. lia.
    + intros ->. reflexivity.
Qed.

Lemma entry_name_is_indented_item_witness :
  exists rel item child,
    locates [("src", DirNode [("main.js", FileNode None)])] (rel ++ [item]) child
    /\ pathSegments "src/main.js" = rel ++ [item]
    /\ 1 = length rel
    /\ "  main.js" = Js.repeat "  " 1 +:+ item.
Proof.
  destruct (entry_name_is_indented_item Posix None
              (DirNode [("src", DirNode [("main.js", FileNode None)])])
              ["project"] ["out"] true eq_refl
              (mkEntry 1 "File" "  main.js" "src/main.js" "pending"))
    as (rel & item & child & Hloc & Hseg & Hlev & Hname & _).
  - vm_compute. right. left. reflexivity.
  - exists rel, item, child. split; [exact Hloc|]. split; [exact Hseg|].
    split; [exact Hlev|exact Hname].
Defined.
